(** * Network-based Autopsy: the two pipeline wrappers

    A shallow embedding of [registerYeoAtlas.py] and [runProbtrackx2GPU.py].
    Both scripts are glue around external binaries, so what there is to
    verify is what they do to their surroundings: which command strings
    reach the shell and through which call, what they print, and what they
    create on disk themselves.  The embedding therefore runs every function
    in a state-and-exception monad over a [World] that holds the file tree,
    the working directory, the process environment and the chronological
    trace of console lines and subprocess launches.

    Things the scripts cannot decide themselves are inputs of the model: the
    effect of a launched command ([sh]), the answer of
    [torch.cuda.is_available()], and the two clock readings. *)

From Stdlib Require Import ZArith Ascii.
From stdpp Require Import gmap strings list fin_maps.

Local Open Scope Z_scope.
Local Open Scope stdpp_scope.

(** ** Python strings *)

Module Str.

Definition chars (s : string) : list ascii := String.list_ascii_of_string s.
Definition of_chars (l : list ascii) : string := String.string_of_list_ascii l.

(** [s.startswith(p)] and [s.endswith(p)] *)
Definition startswith (s p : string) : bool :=
  bool_decide (chars p `prefix_of` chars s).
Definition endswith (s p : string) : bool :=
  bool_decide (chars p `suffix_of` chars s).

(** [sep.join(l)] without a separator *)
Definition concat (l : list string) : string := foldr String.append "" l.

(** [s.split(c)] for a one-character separator: always at least one piece. *)
Fixpoint split_chars (c : ascii) (l : list ascii) : list (list ascii) :=
  match l with
  | [] => [[]]
  | a :: l' =>
      if decide (a = c) then [] :: split_chars c l'
      else match split_chars c l' with
           | [] => [[a]]
           | p :: ps => (a :: p) :: ps
           end
  end.
Definition split (c : ascii) (s : string) : list string :=
  of_chars <$> split_chars c (chars s).

(** The text up to the first blank: the word a shell takes as the program. *)
Fixpoint first_word_chars (l : list ascii) : list ascii :=
  match l with
  | [] => []
  | a :: l' => if Ascii.is_space a then [] else a :: first_word_chars l'
  end.
Definition first_word (s : string) : string := of_chars (first_word_chars (chars s)).

(** Universal-newline reading followed by [readlines()]: CR LF and a lone
    CR both read as LF, and every line keeps its terminator. *)
Fixpoint universal_newlines (l : list ascii) : list ascii :=
  match l with
  | [] => []
  | a :: l' =>
      if decide (a = "013"%char) then
        match l' with
        | b :: _ => if decide (b = "010"%char) then universal_newlines l'
                    else "010"%char :: universal_newlines l'
        | [] => ["010"%char]
        end
      else a :: universal_newlines l'
  end.
Fixpoint lines_chars (cur : list ascii) (l : list ascii) : list (list ascii) :=
  match l with
  | [] => match cur with [] => [] | _ => [rev cur] end
  | a :: l' =>
      if decide (a = "010"%char) then rev (a :: cur) :: lines_chars [] l'
      else lines_chars (a :: cur) l'
  end.
Definition readlines (content : string) : list string :=
  of_chars <$> lines_chars [] (universal_newlines (chars content)).

(** *** Text and bytes

    A string of the model is the byte sequence the operating system sees:
    a file name as [os.listdir] delivers it, a line as a child writes it,
    the content of a file.  Python keeps the bytes that are not UTF-8 as
    escapes inside its [str] values and refuses them wherever text is
    encoded or decoded strictly: [bytes.decode('utf8')], and reading or
    writing a file opened in text mode (the encoding is taken to be UTF-8).
    [utf8] is that codec's notion of well-formed input: no overlong form,
    no surrogate, nothing above U+10FFFF. *)
Definition byte_in (lo hi : N) (c : ascii) : bool :=
  (lo <=? N_of_ascii c)%N && (N_of_ascii c <=? hi)%N.
Definition continuation (c : ascii) : bool := byte_in 128 191 c.
Definition three_bytes (a b : ascii) : bool :=
  (byte_in 224 224 a && byte_in 160 191 b)
  || (byte_in 225 236 a && continuation b)
  || (byte_in 237 237 a && byte_in 128 159 b)
  || (byte_in 238 239 a && continuation b).
Definition four_bytes (a b : ascii) : bool :=
  (byte_in 240 240 a && byte_in 144 191 b)
  || (byte_in 241 243 a && continuation b)
  || (byte_in 244 244 a && byte_in 128 143 b).
Fixpoint utf8_chars (l : list ascii) : bool :=
  match l with
  | [] => true
  | a :: l1 =>
      if byte_in 0 127 a then utf8_chars l1
      else
        match l1 with
        | [] => false
        | b :: l2 =>
            if byte_in 194 223 a then continuation b && utf8_chars l2
            else
              match l2 with
              | [] => false
              | c :: l3 =>
                  if three_bytes a b then continuation c && utf8_chars l3
                  else
                    match l3 with
                    | [] => false
                    | d :: l4 =>
                        four_bytes a b && continuation c && continuation d && utf8_chars l4
                    end
              end
        end
  end.
Definition utf8 (s : string) : bool := utf8_chars (chars s).

(** The lines a reader gets through before the first that is not UTF-8,
    and that line, if there is one. *)
Fixpoint decodable (lines : list string) : list string :=
  match lines with
  | [] => []
  | line :: rest => if utf8 line then line :: decodable rest else []
  end.
Fixpoint undecodable (lines : list string) : option string :=
  match lines with
  | [] => None
  | line :: rest => if utf8 line then undecodable rest else Some line
  end.

End Str.

(** ** [os.path] *)

Module ospath.

(** [posixpath.join(a, b)]: an absolute [b] replaces [a]; otherwise the two
    are glued with one separator unless [a] is empty or already ends in
    one. *)
Definition join (a b : string) : string :=
  if Str.startswith b "/" then b
  else if bool_decide (a = "") || Str.endswith a "/" then a +:+ b
  else a +:+ "/" +:+ b.

End ospath.

(** ** The file tree

    A location is the list of names from the root; the tree maps locations
    to nodes and the root itself is always a directory.  There are no
    symbolic links, so the location a path string names is the one its
    components spell out ([resolve]); whether the operating system gets
    there is a separate matter ([search]): it walks the components one by
    one and every step, [..] and a trailing slash included, has to start
    from an existing directory.  Permissions are outside the model. *)

Inductive node := File (content : string) | Dir.

Definition node_at (t : gmap (list string) node) (p : list string) : option node :=
  match p with [] => Some Dir | _ => t !! p end.

Definition parent (p : list string) : list string := removelast p.

(** One component further; [acc] is the location so far, innermost name
    first. *)
Definition step (acc : list string) (c : string) : list string :=
  if bool_decide (c = "") || bool_decide (c = ".") then acc
  else if bool_decide (c = "..") then tail acc
  else c :: acc.

Fixpoint walk (acc : list string) (parts : list string) : list string :=
  match parts with
  | [] => rev acc
  | c :: cs => walk (step acc c) cs
  end.

(** Where the walk starts: the root for an absolute path. *)
Definition start (cwd : list string) (s : string) : list string :=
  if Str.startswith s "/" then [] else rev cwd.

(** The empty path names nothing ([ENOENT]). *)
Definition resolve (cwd : list string) (s : string) : option (list string) :=
  if bool_decide (s = "") then None
  else Some (walk (start cwd s) (Str.split "/" s)).

(** The kernel's walk: [None] when every component is looked up in an
    existing directory, otherwise the error of the first step that is not. *)
Inductive errno := ENOENT | ENOTDIR.

Fixpoint search (t : gmap (list string) node) (acc : list string) (parts : list string)
    : option errno :=
  match parts with
  | [] => None
  | c :: cs =>
      match node_at t (rev acc) with
      | Some Dir => search t (step acc c) cs
      | Some (File _) => Some ENOTDIR
      | None => Some ENOENT
      end
  end.

(** The components of a path to be created: trailing slashes do not count. *)
Fixpoint strip (parts : list string) : list string :=
  match parts with
  | [] => []
  | c :: cs =>
      match strip cs with
      | [] => if bool_decide (c = "") then [] else [c]
      | cs' => c :: cs'
      end
  end.

(** The names directly below [p], in the order the tree enumerates them. *)
Definition children (t : gmap (list string) node) (p : list string) : list string :=
  omap (λ kv : list string * node,
          if bool_decide (kv.1 ≠ [] ∧ removelast kv.1 = p) then last kv.1 else None)
       (map_to_list t).

(** ** The world, and the monad the scripts run in *)


(** The three ways the scripts launch [/bin/sh -c cmd]. *)
Inductive spawn_api :=
| Popen_pipe      (* subprocess.Popen([cmd], shell=True, stdout=PIPE, stderr=STDOUT) *)
| Call_devnull    (* subprocess.call([cmd], shell=True, stdout=DEVNULL, stderr=STDOUT) *)
| Os_system.      (* os.system(cmd) *)


Inductive event :=
| EPrint (line : string)             (* print(...): one line on the wrapper's stdout *)
| EConsole (line : string)           (* py_console's console.success(...) *)
| ESpawn (api : spawn_api) (cmd : string)
| EArgparse (status : Z).            (* argparse's own output before it exits: the help
                                        text on stdout (0), the usage line and the error
                                        message on stderr (2) *)

Record World := mkWorld {
  fs : gmap (list string) node;
  cwd : list string;
  environ : gmap string string;
  trace : list event
}.

Definition set_fs (t : gmap (list string) node) (w : World) : World :=
  mkWorld t (cwd w) (environ w) (trace w).
Definition emit (e : event) (w : World) : World :=
  mkWorld (fs w) (cwd w) (environ w) (trace w ++ [e]).

Inductive exn :=
| AttributeError (type attr : string)
| NameError (name : string)
| UnboundLocalError (name : string)
| FileNotFoundError (p : string)
| FileExistsError (p : string)
| NotADirectoryError (p : string)
| IsADirectoryError (p : string)
| UnicodeDecodeError (data : string)
| UnicodeEncodeError (text : string)
| SystemExit (code : Z)
| OutsideModel (what : string).

Inductive res (A : Type) := Ok (a : A) | Raise (e : exn).
Arguments Ok {A} a.
Arguments Raise {A} e.

Definition M (A : Type) : Type := World → res A * World.

Definition raise {A} (e : exn) : M A := λ w, (Raise e, w).

#[global] Instance M_ret : MRet M := λ A a w, (Ok a, w).
#[global] Instance M_bind : MBind M := λ A B f m w,
  match m w with
  | (Ok a, w') => f a w'
  | (Raise e, w') => (Raise e, w')
  end.

(** [for x in l: body(x)] *)
Fixpoint for_each {A} (l : list A) (body : A → M unit) : M unit :=
  match l with
  | [] => mret ()
  | x :: l' => body x ;; for_each l' body
  end.

(** *** Built-ins and [os] *)

(** [print(...)]: the console takes whatever text it is given. *)
Definition print (line : string) : M unit := λ w, (Ok (), emit (EPrint line) w).

(** [data.decode('utf8')] *)
Definition decode_utf8 (data : string) : M string :=
  if Str.utf8 data then mret data else raise (UnicodeDecodeError data).

(** [console.success(...)] of py_console, its arguments joined by blanks. *)
Definition console_success (line : string) : M unit := λ w, (Ok (), emit (EConsole line) w).

(** [str(x)] of an optional string, as [print] shows an [os.environ.get]. *)
Definition str_opt (o : option string) : string := default "None" o.

Module os.

Definition oserror (e : errno) (s : string) : exn :=
  match e with
  | ENOENT => FileNotFoundError s
  | ENOTDIR => NotADirectoryError s
  end.

(** The location of [s], if the walk gets there.  [locate] is the walk of a
    path that is to be read or entered; [locate_new] the walk of one that
    is to be created. *)
Definition locate_by (parts : string → list string) (t : gmap (list string) node)
    (cwd : list string) (s : string) : exn + list string :=
  match resolve cwd s with
  | None => inl (FileNotFoundError s)
  | Some p =>
      match search t (start cwd s) (parts s) with
      | None => inr p
      | Some e => inl (oserror e s)
      end
  end.
Definition locate := locate_by (Str.split "/").
Definition locate_new := locate_by (λ s, strip (Str.split "/" s)).

(** [os.path.exists(s)]: every failure of [stat] reads as [False]. *)
Definition path_exists (s : string) : M bool := λ w,
  (Ok (match locate (fs w) (cwd w) s with
       | inr p => bool_decide (is_Some (node_at (fs w) p))
       | inl _ => false
       end), w).

Definition listdir (s : string) : M (list string) := λ w,
  match locate (fs w) (cwd w) s with
  | inl e => (Raise e, w)
  | inr p =>
      match node_at (fs w) p with
      | Some Dir => (Ok (children (fs w) p), w)
      | Some (File _) => (Raise (NotADirectoryError s), w)
      | None => (Raise (FileNotFoundError s), w)
      end
  end.

Definition mkdir (s : string) : M unit := λ w,
  match locate_new (fs w) (cwd w) s with
  | inl e => (Raise e, w)
  | inr p =>
      match node_at (fs w) p with
      | Some _ => (Raise (FileExistsError s), w)
      | None =>
          match node_at (fs w) (parent p) with
          | Some Dir => (Ok (), set_fs (<[p := Dir]> (fs w)) w)
          | Some (File _) => (Raise (NotADirectoryError s), w)
          | None => (Raise (FileNotFoundError s), w)
          end
      end
  end.

(** [os.makedirs(s)] with [exist_ok=False], for a path without [..]: every
    missing ancestor is created on the way down.  (Through a [..] Python
    also creates the directory it steps back out of.) *)
Fixpoint mkdirs_from (t : gmap (list string) node) (base : list string) (rest : list string) : option (gmap (list string) node) :=
  match rest with
  | [] => Some t
  | c :: rest' =>
      let q := base ++ [c] in
      match node_at t q with
      | Some Dir => mkdirs_from t q rest'
      | Some (File _) => None
      | None => mkdirs_from (<[q := Dir]> t) q rest'
      end
  end.

Definition makedirs (s : string) : M unit := λ w,
  match resolve (cwd w) s with
  | None => (Raise (FileNotFoundError s), w)
  | Some p =>
      match node_at (fs w) p with
      | Some _ => (Raise (FileExistsError s), w)
      | None =>
          match mkdirs_from (fs w) [] p with
          | Some t => (Ok (), set_fs t w)
          | None => (Raise (NotADirectoryError s), w)
          end
      end
  end.

Definition chdir (s : string) : M unit := λ w,
  match locate (fs w) (cwd w) s with
  | inl e => (Raise e, w)
  | inr p =>
      match node_at (fs w) p with
      | Some Dir => (Ok (), mkWorld (fs w) p (environ w) (trace w))
      | Some (File _) => (Raise (NotADirectoryError s), w)
      | None => (Raise (FileNotFoundError s), w)
      end
  end.

(** [os.environ[k] = v] and [os.environ.get(k)] *)
Definition setenv (k v : string) : M unit := λ w,
  (Ok (), mkWorld (fs w) (cwd w) (<[k := v]> (environ w)) (trace w)).
Definition getenv (k : string) : M (option string) := λ w, (Ok (environ w !! k), w).

End os.

(** [open(s, 'w')]: the file is created or truncated; the handle is its
    location.  A trailing slash asks for a directory. *)
Definition open_w (s : string) : M (list string) := λ w,
  if Str.endswith s "/" then
    match os.locate_new (fs w) (cwd w) s with
    | inl e => (Raise e, w)
    | inr _ => (Raise (IsADirectoryError s), w)
    end
  else
    match os.locate (fs w) (cwd w) s with
    | inl e => (Raise e, w)
    | inr p =>
        match node_at (fs w) p with
        | Some Dir => (Raise (IsADirectoryError s), w)
        | _ =>
            match node_at (fs w) (parent p) with
            | Some Dir => (Ok p, set_fs (<[p := File ""]> (fs w)) w)
            | Some (File _) => (Raise (NotADirectoryError s), w)
            | None => (Raise (FileNotFoundError s), w)
            end
        end
    end.

(** [f.write(text)]: the text is encoded when it is written, so what was
    written before a failure stays in the file. *)
Definition f_write (f : list string) (text : string) : M unit := λ w,
  if Str.utf8 text then
    match fs w !! f with
    | Some (File content) => (Ok (), set_fs (<[f := File (content +:+ text)]> (fs w)) w)
    | _ => (Raise (OutsideModel "write"), w)
    end
  else (Raise (UnicodeEncodeError text), w).

(** [open(s, 'r').readlines()] *)
Definition read_lines (s : string) : M (list string) := λ w,
  match os.locate (fs w) (cwd w) s with
  | inl e => (Raise e, w)
  | inr p =>
      match node_at (fs w) p with
      | Some (File c) =>
          if Str.utf8 c then (Ok (Str.readlines c), w)
          else (Raise (UnicodeDecodeError c), w)
      | Some Dir => (Raise (IsADirectoryError s), w)
      | None => (Raise (FileNotFoundError s), w)
      end
  end.

(** *** Subprocesses

    What a launched command does is not the wrapper's business: [sh] gives,
    for the world at launch time and the command line, the lines the child
    writes, its exit status and the file tree it leaves behind.  A launch
    is the launch of a command line without a NUL character: Python refuses
    any other with [ValueError] before a shell is started.  Nothing that
    comes from the command line, the environment or a directory listing
    carries one; the content of a file can, and what is stated about
    commands built from file content says so. *)

Record Child := mkChild {
  child_lines : list string;
  child_status : Z;
  child_fs : gmap (list string) node;
  (** the tree it leaves when its reader gives up before the end of the
      output and closes the pipe *)
  child_fs_cut : gmap (list string) node
}.

Section Subprocess.
Variable sh : World → string → Child.

(** Launch, wait, and hand back what the child did. *)
Definition spawn (api : spawn_api) (cmd : string) : M Child := λ w,
  let w1 := emit (ESpawn api cmd) w in
  let c := sh w1 cmd in
  (Ok c, set_fs (child_fs c) w1).

(** [os.system(cmd)]: the status is returned to the caller. *)
Definition os_system (cmd : string) : M Z :=
  c ← spawn Os_system cmd; mret (child_status c).

(** [with subprocess.Popen([cmd], shell=True, stdout=PIPE, stderr=STDOUT) as
    process: body]: the child is started, [body] reads from it, and leaving
    the block closes the pipe and waits.  When [body] has read to the end
    the child leaves [child_fs]; when an exception ends it early, the child
    leaves [child_fs_cut]. *)
Definition Popen (cmd : string) : M Child := λ w,
  let w1 := emit (ESpawn Popen_pipe cmd) w in
  (Ok (sh w1 cmd), w1).

Definition with_process {A} (process : Child) (body : M A) : M A := λ w,
  match body w with
  | (Ok a, w') => (Ok a, set_fs (child_fs process) w')
  | (Raise e, w') => (Raise e, set_fs (child_fs_cut process) w')
  end.

End Subprocess.

(** ** [argparse]

    The parsers of both scripts declare options only: string options taking
    one value and [store_true] switches.  The model covers command lines
    whose option strings are spelled in full and whose values are separate
    words; abbreviated, [--opt=value] and clustered spellings are reported
    as [Unmodelled] instead of being guessed at. *)

Module argparse.

Inductive action := store | store_true.

Record argument := add_argument {
  short : string;
  long : string;
  act : action;
  required : bool
}.

(** The attribute name: the long option without its two dashes, inner
    dashes turned into underscores. *)
Definition dest (a : argument) : string :=
  Str.of_chars ((λ c, if decide (c = "-"%char) then "_"%char else c)
                  <$> drop 2 (Str.chars (long a))).

Record parsed := mkParsed {
  stored : gmap string string;
  switches : gset string;
  extras : bool
}.

Inductive outcome := Parsed (p : parsed) | Exit (code : Z) | Unmodelled.

Definition is_help (tok : string) : bool :=
  bool_decide (tok = "-h") || bool_decide (tok = "--help").

Definition find_option (spec : list argument) (tok : string) : option argument :=
  find (λ a, bool_decide (tok = short a) || bool_decide (tok = long a)) spec.

Fixpoint consume (spec : list argument) (argv : list string)
    (acc : parsed) : outcome :=
  match argv with
  | [] => Parsed acc
  | tok :: rest =>
      if is_help tok then Exit 0
      else
        match find_option spec tok with
        | Some a =>
            match act a with
            | store_true =>
                consume spec rest
                  (mkParsed (stored acc) ({[dest a]} ∪ switches acc) (extras acc))
            | store =>
                match rest with
                | [] => Exit 2
                | v :: rest' =>
                    if Str.startswith v "-" then
                      if is_help v || bool_decide (is_Some (find_option spec v))
                      then Exit 2 else Unmodelled
                    else
                      consume spec rest'
                        (mkParsed (<[dest a := v]> (stored acc)) (switches acc) (extras acc))
                end
            end
        | None =>
            if Str.startswith tok "-" then Unmodelled
            else consume spec rest (mkParsed (stored acc) (switches acc) true)
        end
  end.

(** [parser.parse_args(argv)]: [Exit 2] is argparse's usage error, [Exit 0]
    the exit after printing help. *)
Definition parse_args (spec : list argument) (argv : list string) : outcome :=
  match consume spec argv (mkParsed ∅ ∅ false) with
  | Parsed p =>
      if forallb (λ a, negb (required a) || bool_decide (is_Some (stored p !! dest a))) spec
      then if extras p then Exit 2 else Parsed p
      else Exit 2
  | o => o
  end.

(** Leaving through [parser.exit]: argparse writes its message first. *)
Definition exit {A} (status : Z) : M A := λ w,
  (Raise (SystemExit status), emit (EArgparse status) w).

End argparse.

(** * registerYeoAtlas.py *)

Module registerYeoAtlas.

Record Namespace := mkNamespace {
  subject_directory : string;
  fs_average : string;
  atlas_directory : string;
  lut : string
}.

Definition parser : list argparse.argument :=
  [ argparse.add_argument "-s" "--subject_directory" argparse.store true;
    argparse.add_argument "-f" "--fs_average" argparse.store true;
    argparse.add_argument "-a" "--atlas_directory" argparse.store true;
    argparse.add_argument "-l" "--lut" argparse.store true ].

(** The function builds its parser and ends: there is no [return] and no
    call of [parser.parse_args()], so the caller receives [None]. *)
Definition parse_args : M (option Namespace) :=
  let _ := parser in
  mret None.

(** [args.name] on what [parse_args] returned. *)
Definition getattr {A} (args : option Namespace) (name : string)
    (field : Namespace → A) : M A :=
  match args with
  | Some ns => mret (field ns)
  | None => raise (AttributeError "NoneType" name)
  end.

(** The names bound at module level besides the imports and the functions
    themselves: none.  [SUBJECTS_DIR], [CBIG_CODE_DIR] and [FSA] are
    assigned inside [main] only. *)
Definition module_globals : gmap string string := ∅.

Section Script.
Variable sh : World → string → Child.
Variable globals : gmap string string.

(** Reading a name that is not local to the function. *)
Definition global (name : string) : M string :=
  match globals !! name with
  | Some v => mret v
  | None => raise (NameError name)
  end.

Definition callSub (run_command : string) : M unit :=
  process ← Popen sh run_command;
  with_process process
    (for_each (child_lines process) (λ line,
       text ← decode_utf8 line;
       print text));;
  _ ← spawn sh Call_devnull run_command;
  mret ().

Definition surfReg (subject subject_dir : string) : M unit :=
  for_each ["lh"; "rh"] (λ hemi,
    print ("Processing HEMI " +:+ hemi +:+ " for " +:+ subject);;
    SUBJECTS_DIR ← global "SUBJECTS_DIR";
    os.chdir SUBJECTS_DIR;;
    CBIG_CODE_DIR ← global "CBIG_CODE_DIR";
    FSA ← global "FSA";
    let annotFile := ospath.join CBIG_CODE_DIR
      ("stable_projects/brain_parcellation/Schaefer2018_LocalGlobal/Parcellations/FreeSurfer5.3/"
         +:+ FSA +:+ "/label/" +:+ hemi
         +:+ ".Schaefer2018_1000Parcels_7Networks_order.annot") in
    print annotFile;;
    let targVal := ospath.join subject_dir
      ("label/" +:+ hemi +:+ ".Schaefer2018_1000Parcels_7Networks_order.annot") in
    print targVal;;
    FSA ← global "FSA";
    let surfCmd := "mri_surf2surf --hemi " +:+ hemi +:+ " --srcsubject " +:+ FSA
      +:+ " --trgsubject " +:+ subject +:+ " --sval-annot " +:+ annotFile
      +:+ " --tval " +:+ targVal in
    print (">>> " +:+ surfCmd);;
    callSub surfCmd).

Definition parc2seg (subject subject_directory : string) : M unit :=
  let parc2segCmd := "mri_aparc2aseg --s " +:+ subject +:+ " --o " +:+ subject_directory
    +:+ "/mri/" +:+ subject
    +:+ "_Schaefer2018_1000Parcels_7Networks.mgz --annot Schaefer2018_1000Parcels_7Networks_order" in
  print (">>> " +:+ parc2segCmd);;
  callSub parc2segCmd.

Definition annot2label (subject output_directory : string) : M unit :=
  for_each ["lh"; "rh"] (λ hemi,
    print ("Processing HEMI " +:+ hemi +:+ " for " +:+ subject);;
    let annot2labelCmd := "mri_annotation2label --subject " +:+ subject +:+ " --hemi " +:+ hemi
      +:+ " --annotation Schaefer2018_1000Parcels_7Networks_order --outdir "
      +:+ output_directory +:+ " --ctab " +:+ output_directory
      +:+ "/Schaefer2018_" +:+ hemi +:+ "_LUT.txt" in
    print (">>> " +:+ annot2labelCmd);;
    callSub annot2labelCmd).

(** The text [main] hands to the shell to place the look-up table. *)
Definition symlinkCmd (f_LUT subDir : string) : string :=
  "os.symlink(" +:+ f_LUT +:+ ", os.path.join(" +:+ subDir
    +:+ ",Schaefer2018_1000Parcels_7Networks_order_LUT.txt".

(** [if not os.path.exists(outDir): ... os.makedirs(outDir)] *)
Definition ensure_outDir (outDir : string) : M unit :=
  present ← os.path_exists outDir;
  if negb present then
    print ("OUT DIR " +:+ outDir +:+ " -- Does not exist");;
    os.makedirs outDir
  else mret ().

(** The body of the [for subj in os.listdir(SUBJECTS_DIR)] loop. *)
Definition process_entry (SUBJECTS_DIR f_LUT subj : string) : M unit :=
  print "subj";;
  if bool_decide (subj ≠ "fsaverage6") then
    print ("PROCESSING SUBJECT: " +:+ subj);;
    let subject := subj in
    let subDir := ospath.join SUBJECTS_DIR subj in
    let outDir := ospath.join subDir "Schaefer2018_labels" in
    ensure_outDir outDir;;
    print ("Placing copy of Yeo Atlas LUT in " +:+ subDir);;
    print (symlinkCmd f_LUT subDir);;
    callSub (symlinkCmd f_LUT subDir);;
    surfReg subject subDir;;
    parc2seg subject subDir;;
    annot2label subject outDir;;
    print " "
  else mret ().

(** [main] from the loop on, for given values of its locals. *)
Definition main_loop (SUBJECTS_DIR f_LUT : string) : M unit :=
  entries ← os.listdir SUBJECTS_DIR;
  for_each entries (process_entry SUBJECTS_DIR f_LUT).

Definition main : M unit :=
  args ← parse_args;
  SUBJECTS_DIR ← getattr args "subject_directory" subject_directory;
  CBIG_CODE_DIR ← getattr args "atlas_directory" atlas_directory;
  FSA ← getattr args "fs_average" fs_average;
  f_LUT ← getattr args "lut" lut;
  main_loop SUBJECTS_DIR f_LUT.

End Script.

End registerYeoAtlas.

(** * runProbtrackx2GPU.py *)

Module runProbtrackx2GPU.

Record Namespace := mkNamespace {
  input_directory : string;
  subject : string;
  output_directory : string;
  bedpost_directory : string;
  network : option string;
  no_geometry_fix : bool;
  cpu : bool
}.

Definition parser : list argparse.argument :=
  [ argparse.add_argument "-i" "--input_directory" argparse.store true;
    argparse.add_argument "-s" "--subject" argparse.store true;
    argparse.add_argument "-o" "--output_directory" argparse.store true;
    argparse.add_argument "-b" "--bedpost_directory" argparse.store true;
    argparse.add_argument "-n" "--network" argparse.store false;
    argparse.add_argument "-g" "--no_geometry_fix" argparse.store_true false;
    argparse.add_argument "-c" "--cpu" argparse.store_true false ].

(** [return parser.parse_args()], with [argv] standing for [sys.argv[1:]]. *)
Definition parse_args (argv : list string) : M Namespace :=
  match argparse.parse_args parser argv with
  | argparse.Parsed p =>
      let get := λ k, argparse.stored p !! k in
      match get "input_directory", get "subject", get "output_directory",
            get "bedpost_directory" with
      | Some i, Some s, Some o, Some b =>
          mret (mkNamespace i s o b (get "network")
                  (bool_decide ("no_geometry_fix" ∈ argparse.switches p))
                  (bool_decide ("cpu" ∈ argparse.switches p)))
      | _, _, _, _ => argparse.exit 2
      end
  | argparse.Exit code => argparse.exit code
  | argparse.Unmodelled => raise (OutsideModel "argparse")
  end.

(** [torch.device("cpu")] and [torch.device("cuda")] *)
Inductive device := device_cpu | device_cuda.
Definition str_device (d : device) : string :=
  match d with device_cpu => "cpu" | device_cuda => "cuda" end.

Definition nl : string := String "010"%char "".

Definition probtrackx2_gpu : string := "/usr/pubsw/packages/fsl/6.0.5.1/bin/probtrackx2_gpu".
Definition probtrackx2 : string := "/usr/pubsw/packages/fsl/6.0.5.1/bin/probtrackx2".

Definition fixed_flags : string :=
  " -l -c 0.2 -S 2000 -P 5000 --fibthresh=0.01 --distthresh=0.0 --sampvox=0.0 --steplength=0.25 --forcedir --opd --network -V 1".

Section Script.
Variable sh : World → string → Child.
(** [torch.cuda.is_available()] *)
Variable cuda_is_available : bool.
(** [datetime.date.today().strftime("%Y%m%d")] and [str(datetime.datetime.now())] *)
Variable today now : string.

(** [cuda] is assigned in the first branch only; reading it after the
    second is Python's [UnboundLocalError]. *)
Definition set_device : M (device * bool) :=
  if cuda_is_available then
    os.setenv "CUDA_HOME" "/usr/pubsw/packages/CUDA/11.6/";;
    os.setenv "CUDA_VISIBLE_DEVICES" "0";;
    os.setenv "LD_LIBRARY_PATH" "/usr/pubsw/packages/CUDA/11.6/lib64:/usr/pubsw/packages/CUDA/11.6/extras/CUPTI/lib64:/usr/pubsw/packages/CUDA/9.0/lib64:/usr/pubsw/packages/CUDA/9.1/lib64";;
    let device := device_cuda in
    let cuda := true in
    mret (device, cuda)
  else
    let device := device_cpu in
    raise (UnboundLocalError "cuda").

Definition get_roi_list (roi_path subject date : string) : M (list string * string) :=
  files ← os.listdir roi_path;
  let rois := List.filter (λ item, Str.endswith item ".nii")
                          (ospath.join roi_path <$> files) in
  let network_file_name := subject +:+ "_network_" +:+ date +:+ ".txt" in
  let network_file := ospath.join roi_path network_file_name in
  f ← open_w network_file;
  for_each rois (λ item, f_write f (item +:+ nl));;
  mret (rois, network_file).

Definition set_geometry (bedpost_directory network_file : string) : M unit :=
  let mask := ospath.join bedpost_directory "nodif_brain_mask.nii.gz" in
  mask_exists ← os.path_exists mask;
  network_exists ← (if mask_exists then os.path_exists network_file else mret false);
  if mask_exists && network_exists then
    print ("Diffusion Mask Volume ==  " +:+ mask);;
    print ("ROI Network List ==  " +:+ network_file);;
    rois ← read_lines network_file;
    for_each rois (λ line,
      print ("Working on " +:+ line);;
      let geometryCommand := "fslcpgeom " +:+ mask +:+ " " +:+ line in
      _ ← os_system sh geometryCommand;
      mret ())
  else mret ().

Definition probtrackxCommand (output_directory bedpost_directory network_matrix : string)
    (cuda : bool) : string :=
  let probtrackx_version := if cuda then probtrackx2_gpu else probtrackx2 in
  probtrackx_version +:+ " -x " +:+ network_matrix
    +:+ " -s " +:+ ospath.join bedpost_directory "merged"
    +:+ " -m " +:+ ospath.join bedpost_directory "nodif_brain_mask"
    +:+ " --dir=" +:+ output_directory +:+ fixed_flags.

Definition build_probtrackx_command (output_directory bedpost_directory network_matrix : string)
    (cuda : bool) (device : device) : M unit :=
  let cmd := probtrackxCommand output_directory bedpost_directory network_matrix cuda in
  print cmd;;
  _ ← os_system sh cmd;
  mret ().

(** "Device Configuration" in [main]. *)
Definition configure_device (use_gpu : bool) : M (device * bool) :=
  if use_gpu then
    dc ← set_device;
    console_success ("Using " +:+ str_device dc.1 +:+ " device.");;
    mret dc
  else
    let device := device_cpu in
    console_success ("Using " +:+ str_device device +:+ " device.");;
    mret (device, false).

(** "Set Up Output Directory" in [main]. *)
Definition ensure_output_directory (output_directory : string) : M unit :=
  isExist ← os.path_exists output_directory;
  if negb isExist then
    print ("Creating output directory -> " +:+ output_directory);;
    os.mkdir output_directory
  else
    print ("Output Directory = " +:+ output_directory).

(** [main] after [args = parse_args()]. *)
Definition main_body (args : Namespace) : M unit :=
  let currentDate := today in
  let input_directory := input_directory args in
  let subject := subject args in
  let bedpost_directory := bedpost_directory args in
  let output_directory := output_directory args in
  let directory_name := subject +:+ ".probtrackx.network." +:+ currentDate in
  let output_directory := ospath.join output_directory directory_name in
  let network_file := network args in
  let skip_geometry := no_geometry_fix args in
  let use_gpu := negb (cpu args) in
  print "#------------------- Device Configuration -------------------";;
  dc ← configure_device use_gpu;
  let device := dc.1 in
  let cuda := dc.2 in
  print " ";;
  print "------------------- Setting Up Enviornment -------------------";;
  os.setenv "FSLDIR" "/usr/pubsw/packages/fsl/6.0.5.1";;
  v ← os.getenv "FSLDIR"; print ("FSL DIRECTORY -->  " +:+ str_opt v);;
  v ← os.getenv "CUDA_HOME"; print ("CUDA HOME -->  " +:+ str_opt v);;
  v ← os.getenv "LD_LIBRARY_PATH"; print ("LD LIBRARY PATH -->  " +:+ str_opt v);;
  v ← os.getenv "CUDA_VISIBLE_DEVICES"; print ("CUDA VISIBLE DEVICES -->  " +:+ str_opt v);;
  print " ";;
  ensure_output_directory output_directory;;
  print "";;
  print ("------------------- Begin Processing  " +:+ now +:+ " -------------------");;
  network_file ←
    match network_file with
    | Some network_file =>
        print ("Skip ROI List Generation, " +:+ network_file +:+ " provided as ROI list.");;
        mret network_file
    | None =>
        print "Generating ROI Network File";;
        rn ← get_roi_list input_directory subject currentDate;
        mret rn.2
    end;
  (if skip_geometry then
     print "Skip Geometry has been set - will NOT copy geometry from diffusion mask to ROIs."
   else
     print "Copying Diffusion Mask Geometry to ROI";;
     set_geometry bedpost_directory network_file);;
  print "Running Probtrackx2";;
  build_probtrackx_command output_directory bedpost_directory network_file cuda device;;
  print "Done!".

Definition main (argv : list string) : M unit :=
  args ← parse_args argv;
  main_body args.

End Script.

End runProbtrackx2GPU.

(** * Reading a run *)

(** The launches recorded in a trace, oldest first. *)
Definition spawned (t : list event) : list (spawn_api * string) :=
  omap (λ e, match e with ESpawn api cmd => Some (api, cmd) | _ => None end) t.

Definition commands (t : list event) : list string := snd <$> spawned t.

(** The programs the wrappers exist to run. *)
Definition external_binaries : list string :=
  [ "mri_surf2surf"; "mri_aparc2aseg"; "mri_annotation2label";
    "fslcpgeom"; "probtrackx2"; "probtrackx2_gpu" ].

(** A command line runs [binary] when its first word is the bare name or an
    absolute path whose last component is that name. *)
Definition invokes (binary cmd : string) : bool :=
  let w := Str.first_word cmd in
  bool_decide (w = binary) || (Str.startswith w "/" && Str.endswith w ("/" +:+ binary)).

Definition no_blank (s : string) : bool :=
  forallb (λ c, negb (Ascii.is_space c)) (Str.chars s).

Definition is_external_invocation (cmd : string) : bool :=
  existsb (λ b, invokes b cmd) external_binaries.

(** ** Relating the worlds before and after a run *)

(** [m] takes every world to one that is [R]-related to it, whether it
    returns or raises. *)
Definition preserves (R : relation World) {A} (m : M A) : Prop :=
  ∀ w, R w (m w).2.

(** The trace only grows, and every new event satisfies [P]. *)
Definition extends_with (P : event → Prop) : relation World :=
  λ w w', ∃ t, trace w' = trace w ++ t ∧ Forall P t.

(** The working directory is kept and the file tree is the same at every
    location outside [touched], a set of locations that may depend on the
    working directory. *)
Definition same_outside (touched : list string → list string → Prop) : relation World :=
  λ w w', cwd w' = cwd w ∧ ∀ p, ¬ touched (cwd w) p → fs w' !! p = fs w !! p.

(** A shell whose commands never change the file tree: what is left of a
    run when the external binaries do nothing. *)
Definition inert_shell (sh : World → string → Child) : Prop :=
  ∀ w cmd, child_fs (sh w cmd) = fs w ∧ child_fs_cut (sh w cmd) = fs w.

(** The specification's frame condition: the step leaves the file tree as
    it found it. *)
Definition leaves_disk_alone {A} (m : M A) (w : World) : Prop := fs (m w).2 = fs w.

(** Where [runProbtrackx2GPU.py] writes by itself: the dated output
    directory and, unless [--network] names a list, the network file. *)
Definition probtrackx_writes (args : runProbtrackx2GPU.Namespace) (today : string)
    : list string → list string → Prop :=
  λ c p,
    resolve c (ospath.join (runProbtrackx2GPU.output_directory args)
                 (runProbtrackx2GPU.subject args +:+ ".probtrackx.network." +:+ today)) = Some p
    ∨ (runProbtrackx2GPU.network args = None
       ∧ resolve c (ospath.join (runProbtrackx2GPU.input_directory args)
                      (runProbtrackx2GPU.subject args +:+ "_network_" +:+ today +:+ ".txt"))
         = Some p).

(** Where [registerYeoAtlas.py] writes by itself: the label directory of a
    listed entry other than [fsaverage6], and what [os.makedirs] has to
    create on the way to it. *)
Definition registerYeoAtlas_writes (SUBJECTS_DIR : string) (entries : list string)
    : list string → list string → Prop :=
  λ c p, ∃ subj q,
    subj ∈ entries ∧ subj ≠ "fsaverage6"
    ∧ resolve c (ospath.join (ospath.join SUBJECTS_DIR subj) "Schaefer2018_labels") = Some q
    ∧ p `prefix_of` q.

(** The working directory is kept, and a location of the tree either is
    as it was or was absent, is a directory now and lies in [touched]:
    nothing is overwritten or removed, and no file is written. *)
Definition only_adds_directories (touched : list string → list string → Prop)
    : relation World :=
  λ w w', cwd w' = cwd w
          ∧ ∀ p, fs w' !! p = fs w !! p
                 ∨ (fs w !! p = None ∧ fs w' !! p = Some Dir ∧ touched (cwd w) p).

(** A step that leaves the disk and the working directory alone. *)
Definition off_disk {A} (m : M A) : Prop := ∀ w, cwd (m w).2 = cwd w ∧ fs (m w).2 = fs w.


(** ** Launch discipline *)






(** ** Vocabulary for whole runs *)

(** The properties the specification words for the ROI list and for the
    geometry fix: whatever the directory holds, [get_roi_list] returns the
    [.nii] entries; and whenever the mask and the network file exist,
    [set_geometry] issues one [fslcpgeom] per line of the file. *)
Definition returns_the_nii_entries (roi_path subject date : string) (w : World) : Prop :=
  ∀ files, os.listdir roi_path w = (Ok files, w) →
    (runProbtrackx2GPU.get_roi_list roi_path subject date w).1
    = Ok (ospath.join roi_path <$> List.filter (λ name, Str.endswith name ".nii") files,
          ospath.join roi_path (subject +:+ "_network_" +:+ date +:+ ".txt")).



(** Every launch among the events runs one of [bins]. *)
Definition runs_one_of (bins : list string) (e : event) : Prop :=
  match e with
  | ESpawn _ cmd => existsb (λ b, invokes b cmd) bins = true
  | _ => True
  end.

(** Every spelling the parser knows, [-h] and [--help] included. *)
Definition option_strings (spec : list argparse.argument) : list string :=
  flat_map (λ a, [argparse.short a; argparse.long a]) spec ++ ["-h"; "--help"].

(** A command line inside the modelled fragment: whatever starts with a
    dash is an option string spelled in full. *)
Definition fully_spelled (spec : list argparse.argument) (argv : list string) : Prop :=
  ∀ tok, tok ∈ argv → Str.startswith tok "-" = true → tok ∈ option_strings spec.

(** [v] is the word right after [tok]. *)
Definition follows (tok v : string) (argv : list string) : Prop :=
  ∃ pre post, argv = pre ++ tok :: v :: post.

(** A path without line breaks. *)
Definition one_line (s : string) : Prop :=
  ("010"%char ∉ Str.chars s) ∧ ("013"%char ∉ Str.chars s).

(** Environment variables outside [keys] keep their value (or absence). *)
Definition env_frame (keys : list string) : relation World :=
  λ w w', ∀ k, k ∉ keys → environ w' !! k = environ w !! k.


(** [t'] has everything [t] has. *)
Definition keeps (t t' : gmap (list string) node) : Prop :=
  ∀ p n, node_at t p = Some n → node_at t' p = Some n.

(** A path that never steps back up. *)
Definition no_dotdot (s : string) : Prop := ".." ∉ Str.split "/" s.

(** The property the specification words: on an absent directory the
    set-up step returns normally and the directory is there afterwards. *)
Definition creates_when_absent (setup : string → M unit) (d : string) (w : World) : Prop :=
  os.path_exists d w = (Ok false, w) →
  (setup d w).1 = Ok () ∧ (os.path_exists d (setup d w).2).1 = Ok true.

(** * Sample inputs *)

Module Sample.

(** A shell whose commands print nothing, succeed and leave the disk alone. *)
Definition inert : World → string → Child := λ w _, mkChild [] 0 (fs w) (fs w).

(** A shell whose commands answer with a line that is not UTF-8 in the
    middle of their output. *)
Definition garbled : World → string → Child := λ w _,
  mkChild ["reading" +:+ runProbtrackx2GPU.nl;
           String "233"%char ("t" +:+ runProbtrackx2GPU.nl);
           "done" +:+ runProbtrackx2GPU.nl] 1 (fs w) (fs w).

Definition disk : gmap (list string) node :=
  list_to_map
    [ (["subjects"], Dir);
      (["subjects"; "fsaverage6"], Dir);
      (["subjects"; "sub01"], Dir);
      (["rois"], Dir);
      (["rois"; "a.nii"], File "a");
      (["rois"; "b.nii.gz"], File "b");
      (["rois"; "c.nii"], File "c");
      (["rois"; "notes.txt"], File "n");
      (["bp"], Dir);
      (["bp"; "nodif_brain_mask.nii.gz"], File "mask");
      (["out"], Dir);
      (["lists"], Dir);
      (["lists"; "two.txt"], File ("/rois/a.nii" +:+ runProbtrackx2GPU.nl +:+ "/rois/c.nii" +:+ runProbtrackx2GPU.nl)) ].

Definition world : World := mkWorld disk [] ∅ [].

(** A directory from an older system: one of its names is Latin-1, not
    UTF-8. *)
Definition latin1_name : string := String "233"%char "t".
Definition legacy_disk : gmap (list string) node :=
  list_to_map
    [ (["legacy"], Dir);
      (["legacy"; "z.nii"], File "z");
      (["legacy"; latin1_name +:+ ".nii"], File "b") ].

Definition legacy : World := mkWorld legacy_disk [] ∅ [].



Definition args : runProbtrackx2GPU.Namespace :=
  runProbtrackx2GPU.mkNamespace "/rois" "S1" "/out" "/bp" None false false.

End Sample.

(** * Properties *)

(** ** Strings and paths *)

Section PathFacts.

Lemma chars_app s t : Str.chars (s +:+ t) = Str.chars s ++ Str.chars t.
Proof. unfold Str.chars. induction s as [|a s IH]; simpl; [done | by rewrite IH]. Qed.

Lemma append_assoc (s t u : string) : (s +:+ t) +:+ u = s +:+ t +:+ u.
Proof.
  induction s as [|a s IH]; [done |].
  change (String a ((s +:+ t) +:+ u) = String a (s +:+ t +:+ u)). by rewrite IH.
Qed.

Lemma of_chars_chars s : Str.of_chars (Str.chars s) = s.
Proof. apply String.string_of_list_ascii_of_string. Qed.

Lemma suffix_past_separator (c : ascii) (s la b : list ascii) :
  c ∉ s → s `suffix_of` (la ++ c :: b) → s `suffix_of` b.
Proof.
  intros Hc [k Hk].
  apply app_eq_app in Hk as [l [[-> Hs] | [-> Hb]]].
  - exfalso. apply Hc. rewrite Hs. set_solver.
  - destruct l as [|x l]; simpl in Hb.
    + exfalso. apply Hc. rewrite <- Hb. set_solver.
    + injection Hb as _ ->. by exists l.
Qed.

(** Gluing a directory in front of a name does not change whether the
    name carries a given extension. *)
Lemma endswith_join a b p :
  "/"%char ∉ Str.chars p →
  Str.endswith (ospath.join a b) p = Str.endswith b p.
Proof.
  intros Hp. unfold ospath.join.
  destruct (Str.startswith b "/"); [done |].
  destruct (bool_decide (a = "")) eqn:Ha; simpl.
  { apply bool_decide_eq_true in Ha as ->. done. }
  assert (∀ la, last la = Some "/"%char →
            bool_decide (Str.chars p `suffix_of` (la ++ Str.chars b))
            = bool_decide (Str.chars p `suffix_of` Str.chars b)) as Hglue.
  { intros la Hla. apply bool_decide_ext. split; [| apply suffix_app_r].
    destruct (last_Some la "/"%char) as [[l' ->] _]; [done |].
    rewrite <- app_assoc. simpl. by apply suffix_past_separator. }
  destruct (Str.endswith a "/") eqn:Hs; unfold Str.endswith in *;
    change (Str.chars "/") with ["/"%char] in *.
  - rewrite chars_app. apply Hglue.
    apply bool_decide_eq_true in Hs as [k ->]. by rewrite last_snoc.
  - rewrite !chars_app, app_assoc. apply Hglue.
    change (Str.chars "/") with ["/"%char]. by rewrite last_snoc.
Qed.

Lemma nii_gz_is_not_nii s : Str.endswith (s +:+ ".nii.gz") ".nii" = false.
Proof.
  unfold Str.endswith. apply bool_decide_eq_false. rewrite chars_app.
  intros [k Hk].
  assert (length (Str.chars s ++ Str.chars ".nii.gz") = length (k ++ Str.chars ".nii"))
    as Hlen by (by rewrite Hk).
  rewrite !length_app in Hlen. simpl in Hlen.
  apply (f_equal (drop (length k))) in Hk.
  rewrite drop_app_length in Hk.
  replace (length k) with (length (Str.chars s) + 3)%nat in Hk by lia.
  rewrite drop_app_add in Hk. simpl in Hk. discriminate.
Qed.

End PathFacts.

(** ** Running the monad *)

Section Running.

Lemma run_bind {A B} (m : M A) (f : A → M B) (w : World) :
  (m ≫= f) w = match m w with
                | (Ok a, w') => f a w'
                | (Raise e, w') => (Raise e, w')
                end.
Proof. reflexivity. Qed.

Lemma run_bind_ok {A B} (m : M A) (f : A → M B) (w w' : World) (a : A) :
  m w = (Ok a, w') → (m ≫= f) w = f a w'.
Proof. intros H. by rewrite run_bind, H. Qed.

Lemma run_print {B} (line : string) (f : () → M B) (w : World) :
  (print line ≫= f) w = f () (emit (EPrint line) w).
Proof. reflexivity. Qed.

Context (R : relation World) `{!PreOrder R}.

Lemma preserves_ret {A} (a : A) : preserves R (mret a).
Proof. intros w. simpl. reflexivity. Qed.

Lemma preserves_raise {A} (e : exn) : preserves R (@raise A e).
Proof. intros w. simpl. reflexivity. Qed.

Lemma preserves_bind {A B} (m : M A) (f : A → M B) :
  preserves R m → (∀ a, preserves R (f a)) → preserves R (m ≫= f).
Proof.
  intros Hm Hf w. rewrite run_bind. specialize (Hm w).
  destruct (m w) as [[a | e] w']; simpl in *; [| done].
  etrans; [exact Hm | apply Hf].
Qed.

Lemma preserves_for_each {A} (l : list A) (body : A → M unit) :
  (∀ x, x ∈ l → preserves R (body x)) → preserves R (for_each l body).
Proof.
  induction l as [|x l IH]; intros Hbody; simpl.
  - apply preserves_ret.
  - apply preserves_bind; [apply Hbody; set_solver |].
    intros _. apply IH. intros y Hy. apply Hbody. set_solver.
Qed.

(** Nothing after a [raise] runs. *)
Lemma preserves_raise_bind {A B} (e : exn) (f : A → M B) : preserves R (raise e ≫= f).
Proof. intros w. simpl. reflexivity. Qed.

End Running.

#[global] Instance extends_with_preorder P : PreOrder (extends_with P).
Proof.
  split.
  - intros w. exists []. by rewrite app_nil_r.
  - intros w1 w2 w3 (t1 & H1 & P1) (t2 & H2 & P2). exists (t1 ++ t2).
    rewrite H2, H1, app_assoc. split; [done | by apply Forall_app].
Qed.

#[global] Instance same_outside_preorder Q : PreOrder (same_outside Q).
Proof.
  split.
  - intros w. by split.
  - intros w1 w2 w3 [C1 F1] [C2 F2]. split; [congruence |].
    intros p Hp. rewrite F2, F1; [done | done |]. by rewrite C1.
Qed.

(** ** Text that is UTF-8 *)

Section Utf8.

Lemma utf8_chars_app (n : nat) :
  ∀ la lb, (length la ≤ n)%nat →
    Str.utf8_chars la = true → Str.utf8_chars (la ++ lb) = Str.utf8_chars lb.
Proof.
  induction n as [|n IH]; intros la lb Hlen Hla.
  - destruct la; [done | simpl in Hlen; lia].
  - destruct la as [|a l1]; [done |]. simpl in Hlen.
    cbn [Str.utf8_chars app] in *.
    destruct (Str.byte_in 0 127 a); [apply IH; [lia | done] |].
    destruct l1 as [|b l2]; [done |]. simpl in Hlen. cbn [app].
    destruct (Str.byte_in 194 223 a).
    { apply andb_true_iff in Hla as [-> Hla]. apply IH; [lia | done]. }
    destruct l2 as [|c l3]; [done |]. simpl in Hlen. cbn [app].
    destruct (Str.three_bytes a b).
    { apply andb_true_iff in Hla as [-> Hla]. apply IH; [lia | done]. }
    destruct l3 as [|d l4]; [done |]. simpl in Hlen. cbn [app].
    apply andb_true_iff in Hla as [Hla H4]. rewrite Hla. apply IH; [lia | done].
Qed.

(** A character of the ASCII range neither completes nor breaks a sequence. *)
Lemma utf8_chars_snoc (n : nat) (x : ascii) :
  Str.byte_in 0 127 x = true →
  ∀ l, (length l ≤ n)%nat → Str.utf8_chars (l ++ [x]) = Str.utf8_chars l.
Proof.
  intros Hx.
  assert (Str.continuation x = false) as Hcont.
  { unfold Str.continuation, Str.byte_in in *.
    apply andb_true_iff in Hx as [_ Hx]. apply N.leb_le in Hx.
    apply andb_false_iff. left. apply N.leb_gt. lia. }
  induction n as [|n IH]; intros l Hlen.
  - destruct l; [| simpl in Hlen; lia]. simpl. by rewrite Hx.
  - destruct l as [|a l1]; [simpl; by rewrite Hx |]. simpl in Hlen.
    cbn [Str.utf8_chars app].
    destruct (Str.byte_in 0 127 a) eqn:Ha; [apply IH; lia |].
    destruct l1 as [|b l2]; cbn [app].
    { destruct (Str.byte_in 194 223 a); [by rewrite Hcont | done]. }
    simpl in Hlen.
    destruct (Str.byte_in 194 223 a); [rewrite IH by lia; done |].
    destruct l2 as [|c l3]; cbn [app].
    { destruct (Str.three_bytes a b); [by rewrite Hcont | done]. }
    simpl in Hlen.
    destruct (Str.three_bytes a b); [rewrite IH by lia; done |].
    destruct l3 as [|d l4]; cbn [app].
    { by rewrite Hcont, !andb_false_r. }
    simpl in Hlen. rewrite IH by lia. done.
Qed.

Lemma utf8_app (s t : string) : Str.utf8 s = true → Str.utf8 (s +:+ t) = Str.utf8 t.
Proof. intros H. unfold Str.utf8. rewrite chars_app. by eapply utf8_chars_app. Qed.

Lemma utf8_line (item : string) :
  Str.utf8 (item +:+ runProbtrackx2GPU.nl) = Str.utf8 item.
Proof.
  unfold Str.utf8. rewrite chars_app.
  by apply (utf8_chars_snoc (length (Str.chars item))).
Qed.

Lemma utf8_concat (l : list string) :
  Forall (λ s, Str.utf8 s = true) l → Str.utf8 (Str.concat l) = true.
Proof.
  induction 1 as [|s l Hs _ IH]; [done |]. simpl. by rewrite utf8_app.
Qed.

End Utf8.

(** ** ROI listing *)

Section RoiList.
Import runProbtrackx2GPU.

Lemma filter_after_map {A B} (f : B → bool) (g : A → B) (l : list A) :
  List.filter f (g <$> l) = g <$> List.filter (λ x, f (g x)) l.
Proof.
  induction l as [|x l IH]; [done |].
  rewrite fmap_cons. simpl. rewrite IH.
  by destruct (f (g x)).
Qed.

Lemma nii_has_no_separator : "/"%char ∉ Str.chars ".nii".
Proof. vm_compute. intros H. repeat (apply elem_of_cons in H as [H | H]; [discriminate |]).
  by apply elem_of_nil in H. Qed.

Lemma run_f_write {B} (f : list string) (text content : string) (k : () → M B) (w : World) :
  Str.utf8 text = true → fs w !! f = Some (File content) →
  (f_write f text ≫= k) w = k () (set_fs (<[f := File (content +:+ text)]> (fs w)) w).
Proof. intros Hu Hf. rewrite run_bind. unfold f_write. by rewrite Hu, Hf. Qed.

Lemma append_nil_r (s : string) : s +:+ "" = s.
Proof.
  induction s as [|a s IH]; [done |].
  change (String a (s +:+ "") = String a s). by rewrite IH.
Qed.

(** Writing the items one after the other: all of them when all can be
    encoded, and otherwise those before the first that cannot. *)
Lemma write_items (f : list string) (items : list string) :
  ∀ (content : string) (t : gmap (list string) node) (w : World),
    fs w = <[f := File content]> t →
    Forall (λ item, Str.utf8 item = true) items →
    for_each items (λ item, f_write f (item +:+ nl)) w
    = (Ok (), set_fs (<[f := File (content +:+ Str.concat ((λ item, item +:+ nl) <$> items))]> t) w).
Proof.
  induction items as [|item items IH]; intros content t w Hfs Hall.
  - change (Str.concat _) with "". rewrite append_nil_r, <- Hfs. by destruct w.
  - apply Forall_cons in Hall as [Hitem Hall]. cbn [for_each].
    rewrite (run_f_write f _ content); [| by rewrite utf8_line | by rewrite Hfs, lookup_insert_eq].
    rewrite (IH (content +:+ item +:+ nl) t); [| by rewrite Hfs; simpl; rewrite insert_insert_eq | done].
    rewrite fmap_cons. simpl. by rewrite !append_assoc.
Qed.

Lemma write_items_stops (f : list string) (pre : list string) (bad : string)
    (post : list string) :
  ∀ (content : string) (t : gmap (list string) node) (w : World),
    fs w = <[f := File content]> t →
    Forall (λ item, Str.utf8 item = true) pre → Str.utf8 bad = false →
    for_each (pre ++ bad :: post) (λ item, f_write f (item +:+ nl)) w
    = (Raise (UnicodeEncodeError (bad +:+ nl)),
       set_fs (<[f := File (content +:+ Str.concat ((λ item, item +:+ nl) <$> pre))]> t) w).
Proof.
  induction pre as [|item pre IH]; intros content t w Hfs Hall Hbad.
  - change (Str.concat _) with "". cbn [app for_each].
    rewrite run_bind. unfold f_write. rewrite utf8_line, Hbad.
    rewrite append_nil_r, <- Hfs. by destruct w.
  - apply Forall_cons in Hall as [Hitem Hall]. cbn [for_each app].
    rewrite (run_f_write f _ content); [| by rewrite utf8_line | by rewrite Hfs, lookup_insert_eq].
    rewrite (IH (content +:+ item +:+ nl) t); [| by rewrite Hfs; simpl; rewrite insert_insert_eq | done | done].
    rewrite fmap_cons. simpl. by rewrite !append_assoc.
Qed.

(** What a successful [open(s, 'w')] leaves: an empty file at the location
    it returns, which is the one the path spells out. *)
Lemma open_w_inv (s : string) (w w1 : World) (q : list string) :
  open_w s w = (Ok q, w1) →
  os.locate (fs w) (cwd w) s = inr q ∧ node_at (fs w) q ≠ Some Dir
  ∧ w1 = set_fs (<[q := File ""]> (fs w)) w ∧ q ≠ [].
Proof.
  unfold open_w.
  destruct (Str.endswith s "/"); [destruct (os.locate_new _ _ _); by intros ? |].
  destruct (os.locate (fs w) (cwd w) s) as [e | p]; [done |].
  destruct p as [|c p]; [done |].
  destruct (node_at (fs w) (c :: p)) as [[content|]|] eqn:Hn; [| done |];
    (destruct (node_at (fs w) (parent (c :: p))) as [[?|]|]; [done | | done]);
    intros [= <- <-]; split_and!; congruence.
Qed.

(** C6: [get_roi_list] returns, in listing order, the directory entries
    whose names end in [.nii], each joined with the input directory; a name
    ending in [.nii.gz] is never among them; and the network file, whose
    path is the second component of the result, ends up holding exactly
    those paths, one per line.  This is what happens when the listing
    succeeds, the network file can be opened for writing and the selected
    paths are text that can be encoded (UTF-8).  When one of them cannot,
    the call raises [UnicodeEncodeError] at that path and the file holds
    the paths before it. *)
Theorem get_roi_list_selects_nii (roi_path subject date : string) (w : World)
    (files : list string) (q : list string) :
  let network_file := ospath.join roi_path (subject +:+ "_network_" +:+ date +:+ ".txt") in
  let rois := ospath.join roi_path <$> List.filter (λ name, Str.endswith name ".nii") files in
  os.listdir roi_path w = (Ok files, w) →
  (open_w network_file w).1 = Ok q →
  (Forall (λ item, Str.utf8 item = true) rois →
     get_roi_list roi_path subject date w
     = (Ok (rois, network_file),
        set_fs (<[q := File (Str.concat ((λ item, item +:+ nl) <$> rois))]> (fs w)) w))
  ∧ (∀ pre bad post,
       rois = pre ++ bad :: post →
       Forall (λ item, Str.utf8 item = true) pre → Str.utf8 bad = false →
       get_roi_list roi_path subject date w
       = (Raise (UnicodeEncodeError (bad +:+ nl)),
          set_fs (<[q := File (Str.concat ((λ item, item +:+ nl) <$> pre))]> (fs w)) w))
  ∧ (∀ stem, Str.endswith (stem +:+ ".nii.gz") ".nii" = false).
Proof.
  intros network_file rois Hlist Hopen.
  destruct (open_w network_file w) as [r w1] eqn:Hw1. simpl in Hopen. subst r.
  destruct (open_w_inv _ _ _ _ Hw1) as (Hloc & _ & -> & Hq).
  assert (get_roi_list roi_path subject date w
          = (for_each rois (λ item, f_write q (item +:+ nl));; mret (rois, network_file))
              (set_fs (<[q := File ""]> (fs w)) w)) as Hrun.
  { unfold get_roi_list. rewrite (run_bind_ok _ _ _ _ _ Hlist).
    rewrite filter_after_map.
    rewrite (filter_ext _ (λ name, Str.endswith name ".nii"))
      by (intros name; apply endswith_join, nii_has_no_separator).
    fold rois. fold network_file. by rewrite (run_bind_ok _ _ _ _ _ Hw1). }
  split_and!; [| | apply nii_gz_is_not_nii].
  - intros Hall. rewrite Hrun, run_bind.
    by rewrite (write_items q rois "" (fs w)).
  - intros pre bad post Hrois Hpre Hbad. rewrite Hrun, run_bind, Hrois.
    by rewrite (write_items_stops q pre bad post "" (fs w)).
Qed.

End RoiList.

Lemma get_roi_list_selects_nii_witness :
  runProbtrackx2GPU.get_roi_list "/rois" "S1" "20240101" Sample.world
  = (Ok (["/rois/c.nii"; "/rois/a.nii"], "/rois/S1_network_20240101.txt"),
     set_fs (<[["rois"; "S1_network_20240101.txt"] :=
                 File ("/rois/c.nii" +:+ runProbtrackx2GPU.nl +:+ "/rois/a.nii"
                         +:+ runProbtrackx2GPU.nl)]> Sample.disk)
            Sample.world)
  ∧ runProbtrackx2GPU.get_roi_list "/legacy" "S1" "20240101" Sample.legacy
    = (Raise (UnicodeEncodeError ("/legacy/" +:+ Sample.latin1_name +:+ ".nii"
                                    +:+ runProbtrackx2GPU.nl)),
       set_fs (<[["legacy"; "S1_network_20240101.txt"] :=
                   File ("/legacy/z.nii" +:+ runProbtrackx2GPU.nl)]> Sample.legacy_disk)
              Sample.legacy).
Proof.
  split.
  - apply (get_roi_list_selects_nii "/rois" "S1" "20240101" Sample.world
             ["b.nii.gz"; "notes.txt"; "c.nii"; "a.nii"]
             ["rois"; "S1_network_20240101.txt"]);
      [vm_compute; reflexivity | vm_compute; reflexivity | repeat constructor].
  - destruct (get_roi_list_selects_nii "/legacy" "S1" "20240101" Sample.legacy
                ["z.nii"; Sample.latin1_name +:+ ".nii"]
                ["legacy"; "S1_network_20240101.txt"]) as (_ & Hstops & _);
      [vm_compute; reflexivity | vm_compute; reflexivity |].
    apply (Hstops ["/legacy/z.nii"] ("/legacy/" +:+ Sample.latin1_name +:+ ".nii") []);
      [vm_compute; reflexivity | repeat constructor | vm_compute; reflexivity].
Defined.

Lemma get_roi_list_counterexample :
  ¬ returns_the_nii_entries "/legacy" "S1" "20240101" Sample.legacy.
Proof.
  intros H.
  specialize (H ["z.nii"; Sample.latin1_name +:+ ".nii"] ltac:(vm_compute; reflexivity)).
  vm_compute in H. discriminate.
Qed.

(** ** What each primitive does to the trace *)

Section TraceFacts.
Context (P : event → Prop).

Lemma quiet_preserves {A} (m : M A) :
  (∀ w, trace (m w).2 = trace w) → preserves (extends_with P) m.
Proof. intros H w. exists []. by rewrite H, app_nil_r. Qed.

Lemma emit_extends e w : P e → extends_with P w (emit e w).
Proof. intros He. exists [e]. split; [done | by constructor]. Qed.

Lemma print_extends line : P (EPrint line) → preserves (extends_with P) (print line).
Proof. intros H w. by apply emit_extends. Qed.

Lemma console_extends line :
  P (EConsole line) → preserves (extends_with P) (console_success line).
Proof. intros H w. by apply emit_extends. Qed.

Lemma spawn_extends sh api cmd :
  P (ESpawn api cmd) → preserves (extends_with P) (spawn sh api cmd).
Proof. intros H w. by apply emit_extends. Qed.

Lemma os_system_extends sh cmd :
  P (ESpawn Os_system cmd) → preserves (extends_with P) (os_system sh cmd).
Proof.
  intros H. apply preserves_bind; [apply _ | by apply spawn_extends |].
  intros c. apply preserves_ret, _.
Qed.

Lemma path_exists_quiet s : preserves (extends_with P) (os.path_exists s).
Proof. by apply quiet_preserves. Qed.

Lemma listdir_quiet s : preserves (extends_with P) (os.listdir s).
Proof. apply quiet_preserves. intros w. unfold os.listdir. by repeat case_match. Qed.

Lemma mkdir_quiet s : preserves (extends_with P) (os.mkdir s).
Proof. apply quiet_preserves. intros w. unfold os.mkdir. by repeat case_match. Qed.

Lemma makedirs_quiet s : preserves (extends_with P) (os.makedirs s).
Proof. apply quiet_preserves. intros w. unfold os.makedirs. by repeat case_match. Qed.

Lemma chdir_quiet s : preserves (extends_with P) (os.chdir s).
Proof. apply quiet_preserves. intros w. unfold os.chdir. by repeat case_match. Qed.

Lemma setenv_quiet k v : preserves (extends_with P) (os.setenv k v).
Proof. by apply quiet_preserves. Qed.

Lemma getenv_quiet k : preserves (extends_with P) (os.getenv k).
Proof. by apply quiet_preserves. Qed.

Lemma open_w_quiet s : preserves (extends_with P) (open_w s).
Proof. apply quiet_preserves. intros w. unfold open_w. by repeat case_match. Qed.

Lemma f_write_quiet f text : preserves (extends_with P) (f_write f text).
Proof. apply quiet_preserves. intros w. unfold f_write. by repeat case_match. Qed.

Lemma read_lines_quiet s : preserves (extends_with P) (read_lines s).
Proof. apply quiet_preserves. intros w. unfold read_lines. by repeat case_match. Qed.

Lemma decode_quiet data : preserves (extends_with P) (decode_utf8 data).
Proof. apply quiet_preserves. intros w. unfold decode_utf8. by case_match. Qed.

Lemma Popen_extends sh cmd :
  P (ESpawn Popen_pipe cmd) → preserves (extends_with P) (Popen sh cmd).
Proof. intros H w. by apply emit_extends. Qed.

Lemma with_process_extends {A} (process : Child) (body : M A) :
  preserves (extends_with P) body → preserves (extends_with P) (with_process process body).
Proof.
  intros Hbody w. specialize (Hbody w). unfold with_process.
  by destruct (body w) as [[a | e] w'].
Qed.

End TraceFacts.

Ltac trace_step :=
  lazymatch goal with
  | |- preserves _ (raise _ ≫= _) => apply preserves_raise_bind; apply _
  | |- preserves _ (mret _) => apply preserves_ret; apply _
  | |- preserves _ (raise _) => apply preserves_raise; apply _
  | |- preserves _ (print _) => apply print_extends
  | |- preserves _ (console_success _) => apply console_extends
  | |- preserves _ (os_system _ _) => apply os_system_extends
  | |- preserves _ (spawn _ _ _) => apply spawn_extends
  | |- preserves _ (os.path_exists _) => apply path_exists_quiet
  | |- preserves _ (os.listdir _) => apply listdir_quiet
  | |- preserves _ (os.mkdir _) => apply mkdir_quiet
  | |- preserves _ (os.makedirs _) => apply makedirs_quiet
  | |- preserves _ (os.chdir _) => apply chdir_quiet
  | |- preserves _ (os.setenv _ _) => apply setenv_quiet
  | |- preserves _ (os.getenv _) => apply getenv_quiet
  | |- preserves _ (open_w _) => apply open_w_quiet
  | |- preserves _ (f_write _ _) => apply f_write_quiet
  | |- preserves _ (read_lines _) => apply read_lines_quiet
  | |- preserves _ (decode_utf8 _) => apply decode_quiet
  | |- preserves _ (Popen _ _) => apply Popen_extends
  | |- preserves _ (with_process _ _) => apply with_process_extends
  | |- preserves _ (for_each _ _) => apply preserves_for_each; [apply _ | intros ? ?]
  | |- preserves _ (_ ≫= _) => apply preserves_bind; [apply _ | | intros ?]
  | |- preserves _ (match ?x with _ => _ end) => destruct x
  end.

(** ** The first word of a command line *)

Section FirstWord.

Lemma first_word_chars_app (la lb : list ascii) :
  forallb (λ c, negb (Ascii.is_space c)) la = true →
  Str.first_word_chars (la ++ " "%char :: lb) = la.
Proof.
  induction la as [|a la IH]; simpl; [done |].
  intros [Ha Hla]%andb_true_iff. apply negb_true_iff in Ha. rewrite Ha.
  by rewrite IH.
Qed.

(** A blank-free program name followed by text that starts with a blank. *)
Lemma first_word_app (a lit rest : string) :
  no_blank a = true → Str.startswith lit " " = true →
  Str.first_word (a +:+ lit +:+ rest) = a.
Proof.
  intros Ha Hlit. unfold Str.first_word. rewrite !chars_app.
  apply bool_decide_eq_true in Hlit as [k Hk]. rewrite Hk. simpl.
  rewrite first_word_chars_app by done. apply of_chars_chars.
Qed.

End FirstWord.

(** ** Finding a path *)

Section Finding.

Lemma run_setenv {B} (k v : string) (f : () → M B) (w : World) :
  (os.setenv k v ≫= f) w = f () (mkWorld (fs w) (cwd w) (<[k := v]> (environ w)) (trace w)).
Proof. reflexivity. Qed.

Lemma run_getenv {B} (k : string) (f : option string → M B) (w : World) :
  (os.getenv k ≫= f) w = f (environ w !! k) w.
Proof. reflexivity. Qed.

Lemma bind_ok_inv {A B} (m : M A) (f : A → M B) (w w' : World) (b : B) :
  (m ≫= f) w = (Ok b, w') → ∃ a w1, m w = (Ok a, w1) ∧ f a w1 = (Ok b, w').
Proof.
  rewrite run_bind. destruct (m w) as [[a | e] w1]; [| done]. intros H. by exists a, w1.
Qed.

(** A walk that gets there ends where the path says. *)
Lemma locate_resolve (parts : string → list string) (t : gmap (list string) node)
    (c : list string) (s : string) (p : list string) :
  os.locate_by parts t c s = inr p → resolve c s = Some p.
Proof.
  unfold os.locate_by. destruct (resolve c s) as [q|]; [| done].
  destruct (search _ _ _); [done |]. by intros [= ->].
Qed.

Lemma path_exists_at (s : string) (w : World) (p : list string) (n : node) :
  os.locate (fs w) (cwd w) s = inr p → node_at (fs w) p = Some n →
  os.path_exists s w = (Ok true, w).
Proof.
  intros Hloc Hn. unfold os.path_exists. rewrite Hloc, Hn.
  by rewrite bool_decide_eq_true_2 by eauto.
Qed.


Lemma path_exists_total (s : string) (w : World) : ∃ b, os.path_exists s w = (Ok b, w).
Proof. by eexists. Qed.

(** Whether a path exists is a matter of the tree and the working
    directory only. *)
Lemma path_exists_same (s : string) (w w' : World) (b : bool) :
  fs w' = fs w → cwd w' = cwd w →
  os.path_exists s w = (Ok b, w) → os.path_exists s w' = (Ok b, w').
Proof. unfold os.path_exists. intros -> -> [= <-]. done. Qed.

(** Adding to the tree does not close a way that was open. *)
Lemma search_keeps (t t' : gmap (list string) node) (parts : list string) :
  keeps t t' → ∀ acc, search t acc parts = None → search t' acc parts = None.
Proof.
  intros Hk. induction parts as [|c cs IH]; intros acc; [done |]. simpl.
  destruct (node_at t (rev acc)) as [[content|]|] eqn:Hn; [done | | done].
  rewrite (Hk _ _ Hn). apply IH.
Qed.


Lemma keeps_refl (t : gmap (list string) node) : keeps t t.
Proof. by intros p n. Qed.

Lemma keeps_insert (t : gmap (list string) node) (q : list string) (n : node) :
  node_at t q = None → keeps t (<[q := n]> t).
Proof.
  intros Hq p m Hp. destruct q as [|c q]; [done |].
  destruct p as [|d p]; [done |]. simpl in *.
  rewrite lookup_insert_ne; [done |]. intros Heq. by rewrite Heq, Hp in Hq.
Qed.

End Finding.

(** ** The geometry fix *)

Section Geometry.
Import runProbtrackx2GPU.
Variable sh : World → string → Child.

Lemma spawned_app t1 t2 : spawned (t1 ++ t2) = spawned t1 ++ spawned t2.
Proof. apply omap_app. Qed.

Lemma probtrackx_first_word out bedpost nm cuda :
  Str.first_word (probtrackxCommand out bedpost nm cuda)
    = if cuda then probtrackx2_gpu else probtrackx2.
Proof. unfold probtrackxCommand. apply first_word_app; by destruct cuda. Qed.



Lemma geometry_loop (mask : string) (lines : list string) (w : World) :
  let r := for_each lines (λ line,
             print ("Working on " +:+ line);;
             _ ← os_system sh ("fslcpgeom " +:+ mask +:+ " " +:+ line);
             mret ()) w in
  r.1 = Ok () ∧ cwd r.2 = cwd w ∧
  spawned (trace r.2)
    = spawned (trace w)
      ++ ((λ line, (Os_system, "fslcpgeom " +:+ mask +:+ " " +:+ line)) <$> lines).
Proof.
  revert w. induction lines as [|line lines IH]; intros w; simpl.
  - by rewrite app_nil_r.
  - destruct (IH (set_fs (child_fs (sh (emit (ESpawn Os_system ("fslcpgeom " +:+ mask +:+ " " +:+ line))
                                         (emit (EPrint ("Working on " +:+ line)) w))
                                       ("fslcpgeom " +:+ mask +:+ " " +:+ line)))
                    (emit (ESpawn Os_system ("fslcpgeom " +:+ mask +:+ " " +:+ line))
                       (emit (EPrint ("Working on " +:+ line)) w))))
      as (Hok & Hcwd & Htr).
    split_and!; [exact Hok | exact Hcwd |].
    etrans; [exact Htr |]. simpl. rewrite !spawned_app. simpl.
    by rewrite app_nil_r, <- app_assoc.
Qed.

Lemma read_lines_text (s : string) (w : World) (q : list string) (content : string) :
  os.locate (fs w) (cwd w) s = inr q → node_at (fs w) q = Some (File content) →
  read_lines s w
  = (if Str.utf8 content then Ok (Str.readlines content)
     else Raise (UnicodeDecodeError content), w).
Proof. intros Hloc Hn. unfold read_lines. rewrite Hloc, Hn. by destruct (Str.utf8 content). Qed.

(** With the mask and the network file in place, the launches of
    [set_geometry] are one [fslcpgeom] per line of the file when its
    content is text, and none when it is not. *)
Lemma set_geometry_launches (bedpost network_file : string) (w : World) (q : list string)
    (content : string) :
  let mask := ospath.join bedpost "nodif_brain_mask.nii.gz" in
  os.path_exists mask w = (Ok true, w) →
  os.locate (fs w) (cwd w) network_file = inr q →
  node_at (fs w) q = Some (File content) →
  if Str.utf8 content then
    (set_geometry sh bedpost network_file w).1 = Ok ()
    ∧ spawned (trace (set_geometry sh bedpost network_file w).2)
      = spawned (trace w)
        ++ ((λ line, (Os_system, "fslcpgeom " +:+ mask +:+ " " +:+ line))
              <$> Str.readlines content)
  else
    (set_geometry sh bedpost network_file w).1 = Raise (UnicodeDecodeError content)
    ∧ spawned (trace (set_geometry sh bedpost network_file w).2) = spawned (trace w).
Proof.
  intros mask Hmask Hloc Hnode.
  pose proof (path_exists_at network_file w q _ Hloc Hnode) as Hnet.
  unfold set_geometry. fold mask.
  rewrite (run_bind_ok _ _ _ _ _ Hmask).
  rewrite (run_bind_ok _ _ _ _ _ Hnet). cbn [andb].
  rewrite !run_print, run_bind.
  rewrite (read_lines_text network_file _ q content) by done.
  destruct (Str.utf8 content).
  - destruct (geometry_loop mask (Str.readlines content)
                (emit (EPrint ("ROI Network List ==  " +:+ network_file))
                   (emit (EPrint ("Diffusion Mask Volume ==  " +:+ mask)) w)))
      as (Hok & _ & Htr).
    split; [exact Hok |]. etrans; [exact Htr |].
    simpl. rewrite !spawned_app. simpl. by rewrite !app_nil_r.
  - split; [done |]. simpl. rewrite !spawned_app. simpl. by rewrite !app_nil_r.
Qed.


End Geometry.

(** ** Directory creation *)

Section Directories.

Lemma node_at_insert_absent (t : gmap (list string) node) (q p : list string) (n : node) :
  node_at t q = None → node_at (<[q := n]> t) p = if decide (q = p) then Some n else node_at t p.
Proof.
  intros Hq. destruct q as [|c q]; [done |].
  destruct p as [|d p]; [by case_decide |].
  apply lookup_insert.
Qed.

(** [os.makedirs] never disturbs what is already there. *)
Lemma mkdirs_from_keeps (rest : list string) (t t' : gmap (list string) node)
    (base : list string) :
  os.mkdirs_from t base rest = Some t' → keeps t t'.
Proof.
  revert t base. induction rest as [|c rest IH]; intros t base; simpl.
  - intros [= ->]. apply keeps_refl.
  - destruct (node_at t (base ++ [c])) as [[content|]|] eqn:Hq; [done | apply IH |].
    intros Hrec p n Hp. apply (IH _ _ Hrec).
    rewrite node_at_insert_absent by done.
    case_decide; [congruence | done].
Qed.

(** After it, every directory on the way is there. *)
Lemma mkdirs_from_creates (rest : list string) (t t' : gmap (list string) node)
    (base : list string) (k : nat) :
  node_at t base = Some Dir →
  os.mkdirs_from t base rest = Some t' → node_at t' (base ++ take k rest) = Some Dir.
Proof.
  intros Hbase Hrun.
  assert (node_at t' base = Some Dir) as Hbase' by (by apply (mkdirs_from_keeps _ _ _ _ Hrun)).
  revert t base k Hbase Hrun Hbase'.
  induction rest as [|c rest IH]; intros t base k Hbase Hrun Hbase'.
  - by rewrite take_nil, app_nil_r.
  - destruct k as [|k]; [by rewrite take_0, app_nil_r |].
    cbn [take].
    replace (base ++ c :: take k rest) with ((base ++ [c]) ++ take k rest)
      by by rewrite <- app_assoc.
    simpl in Hrun.
    destruct (node_at t (base ++ [c])) as [[content|]|] eqn:Hq; [done | |].
    + apply (IH t); [done | done |]. by apply (mkdirs_from_keeps _ _ _ _ Hrun).
    + assert (node_at (<[base ++ [c] := Dir]> t) (base ++ [c]) = Some Dir) as Hnew.
      { rewrite node_at_insert_absent by done. by rewrite decide_True. }
      apply (IH (<[base ++ [c] := Dir]> t)); [done | done |].
      by apply (mkdirs_from_keeps _ _ _ _ Hrun).
Qed.

(** It succeeds as long as no component on the way is a regular file. *)
Lemma mkdirs_from_succeeds (rest : list string) (t : gmap (list string) node)
    (base : list string) :
  (∀ k content, node_at t (base ++ take k rest) ≠ Some (File content)) →
  is_Some (os.mkdirs_from t base rest).
Proof.
  revert t base. induction rest as [|c rest IH]; intros t base Hfree; simpl; [by eexists |].
  assert (∀ k, base ++ take (S k) (c :: rest) = (base ++ [c]) ++ take k rest) as Hshift.
  { intros k. simpl. by rewrite <- app_assoc. }
  destruct (node_at t (base ++ [c])) as [[content|]|] eqn:Hq.
  - exfalso. apply (Hfree 1%nat content). simpl. by rewrite take_0.
  - apply IH. intros k content. rewrite <- Hshift. apply Hfree.
  - apply IH. intros k content. rewrite node_at_insert_absent by done.
    case_decide; [done |]. rewrite <- Hshift. apply Hfree.
Qed.

(** What it writes was absent, becomes a directory, and lies on the way to
    the target. *)
Lemma mkdirs_from_frame (rest : list string) (t t' : gmap (list string) node)
    (base p : list string) :
  os.mkdirs_from t base rest = Some t' →
  t' !! p = t !! p
  ∨ (t !! p = None ∧ t' !! p = Some Dir ∧ p `prefix_of` (base ++ rest)).
Proof.
  revert t base. induction rest as [|c rest IH]; intros t base; simpl.
  - intros [= ->]. by left.
  - replace (base ++ c :: rest) with ((base ++ [c]) ++ rest) by by rewrite <- app_assoc.
    destruct (node_at t (base ++ [c])) as [[content|]|] eqn:Hq; [done | apply IH |].
    intros Hrec.
    assert ((base ++ [c]) ≠ []) as Hne by (by destruct base).
    assert (t !! (base ++ [c]) = None) as Hq'.
    { destruct (base ++ [c]); done. }
    destruct (IH _ _ Hrec) as [Hsame | (Hnone & Hdir & Hpre)].
    + destruct (decide (base ++ [c] = p)) as [<- | Hp].
      * right. rewrite Hsame, lookup_insert_eq. split_and!; [done | done |].
        by apply prefix_app_r.
      * left. by rewrite Hsame, lookup_insert_ne.
    + right. split_and!; [| done | done].
      destruct (decide (base ++ [c] = p)) as [<- | Hp]; [done |].
      by rewrite lookup_insert_ne in Hnone.
Qed.

Lemma absent_not_exists (d : string) (w : World) (q : list string) :
  resolve (cwd w) d = Some q → node_at (fs w) q = None →
  os.path_exists d w = (Ok false, w).
Proof.
  intros Hres Hnone. unfold os.path_exists.
  destruct (os.locate (fs w) (cwd w) d) as [e | p] eqn:Hloc; [done |].
  apply locate_resolve in Hloc. rewrite Hres in Hloc. injection Hloc as <-.
  by rewrite Hnone, bool_decide_eq_false_2 by (by intros [? ?]).
Qed.

(** *** Walks *)

Lemma step_forward (acc : list string) (c : string) :
  c ≠ ".." → rev acc `prefix_of` rev (step acc c).
Proof.
  intros Hc. unfold step. destruct (_ || _); [done |].
  rewrite bool_decide_eq_false_2 by done. simpl. by apply prefix_app_r.
Qed.

Lemma walk_forward (parts : list string) :
  ".." ∉ parts → ∀ acc, rev acc `prefix_of` walk acc parts.
Proof.
  induction parts as [|c cs IH]; intros Hno acc; [done |]. simpl.
  etrans; [apply (step_forward acc c) | apply IH]; set_solver.
Qed.

(** Without [..] the walk passes through prefixes of its target only, so
    it gets there when they are all directories. *)
Lemma search_forward (t : gmap (list string) node) (parts : list string) :
  ".." ∉ parts →
  ∀ acc, (∀ k, node_at t (take k (walk acc parts)) = Some Dir) → search t acc parts = None.
Proof.
  induction parts as [|c cs IH]; intros Hno acc Hdirs; [done |]. simpl.
  destruct (walk_forward (c :: cs) Hno acc) as [l Hl].
  specialize (Hdirs (length (rev acc))) as Hacc.
  rewrite Hl, take_app_length in Hacc. rewrite Hacc.
  apply IH; [set_solver | done].
Qed.

Lemma search_app (t : gmap (list string) node) (l1 l2 : list string) :
  ∀ acc, search t acc (l1 ++ l2)
         = match search t acc l1 with
           | None => search t (foldl step acc l1) l2
           | Some e => Some e
           end.
Proof.
  induction l1 as [|c l1 IH]; intros acc; [done |]. simpl.
  by destruct (node_at t (rev acc)) as [[content|]|].
Qed.

Lemma walk_foldl (parts : list string) : ∀ acc, walk acc parts = rev (foldl step acc parts).
Proof. induction parts as [|c cs IH]; intros acc; [done | apply IH]. Qed.

Lemma strip_spec (parts : list string) :
  ∃ n, parts = strip parts ++ replicate n "".
Proof.
  induction parts as [|c cs [n IH]]; [by exists 0%nat |]. simpl.
  destruct (strip cs) as [|c' cs'] eqn:Hs.
  - simpl in IH. case_bool_decide as Hc.
    + subst c. exists (S n). by rewrite IH.
    + exists n. by rewrite IH.
  - exists n. by rewrite IH at 1.
Qed.

Lemma foldl_step_empties (n : nat) (acc : list string) :
  foldl step acc (replicate n "") = acc.
Proof. induction n as [|n IH]; [done |]. simpl. exact IH. Qed.

Lemma search_empties (t : gmap (list string) node) (n : nat) (acc : list string) :
  node_at t (rev acc) = Some Dir → search t acc (replicate n "") = None.
Proof. intros Hdir. induction n as [|n IH]; [done |]. simpl. by rewrite Hdir. Qed.

(** A path that could be created leads to a directory once it is one. *)
Lemma locate_created (t t' : gmap (list string) node) (c : list string) (s : string)
    (q : list string) :
  os.locate_new t c s = inr q → keeps t t' → node_at t' q = Some Dir →
  os.locate t' c s = inr q.
Proof.
  unfold os.locate_new, os.locate, os.locate_by. intros Hloc Hk Hdir.
  destruct (resolve c s) as [p|] eqn:Hres; [| done].
  destruct (search t _ _) eqn:Hs; [done |]. injection Hloc as ->.
  destruct (strip_spec (Str.split "/" s)) as [n Hn].
  assert (q = rev (foldl step (start c s) (strip (Str.split "/" s)))) as Hq.
  { unfold resolve in Hres. case_bool_decide; [done |]. injection Hres as <-.
    rewrite walk_foldl. rewrite Hn at 1. by rewrite foldl_app, foldl_step_empties. }
  rewrite Hn, search_app, (search_keeps t t' _ Hk _ Hs).
  rewrite search_empties; [done |]. by rewrite <- Hq.
Qed.

Lemma locate_forward (t : gmap (list string) node) (c : list string) (s : string)
    (q : list string) :
  no_dotdot s → resolve c s = Some q → (∀ k, node_at t (take k q) = Some Dir) →
  os.locate t c s = inr q.
Proof.
  intros Hno Hres Hdirs. unfold os.locate, os.locate_by. rewrite Hres.
  unfold resolve in Hres. case_bool_decide; [done |]. injection Hres as <-.
  by rewrite search_forward.
Qed.

End Directories.

Section DirectorySetup.

Lemma ensure_outDir_present (d : string) (w : World) :
  os.path_exists d w = (Ok true, w) → registerYeoAtlas.ensure_outDir d w = (Ok (), w).
Proof. intros H. unfold registerYeoAtlas.ensure_outDir. by rewrite (run_bind_ok _ _ _ _ _ H). Qed.

Lemma ensure_outDir_missing (d : string) (w : World) :
  os.path_exists d w = (Ok false, w) →
  registerYeoAtlas.ensure_outDir d w
  = os.makedirs d (emit (EPrint ("OUT DIR " +:+ d +:+ " -- Does not exist")) w).
Proof.
  intros H. unfold registerYeoAtlas.ensure_outDir.
  rewrite (run_bind_ok _ _ _ _ _ H). cbn [negb]. by rewrite run_print.
Qed.

Lemma ensure_outDir_absent (d : string) (w : World) (q : list string) :
  resolve (cwd w) d = Some q → node_at (fs w) q = None →
  (∀ k content, node_at (fs w) (take k q) ≠ Some (File content)) →
  ∃ t, os.mkdirs_from (fs w) [] q = Some t
       ∧ registerYeoAtlas.ensure_outDir d w
         = (Ok (), set_fs t (emit (EPrint ("OUT DIR " +:+ d +:+ " -- Does not exist")) w)).
Proof.
  intros Hres Hnone Hfree.
  destruct (mkdirs_from_succeeds q (fs w) [] Hfree) as [t Ht].
  exists t. split; [done |].
  rewrite (ensure_outDir_missing d w (absent_not_exists d w q Hres Hnone)).
  unfold os.makedirs. simpl cwd. simpl fs. by rewrite Hres, Hnone, Ht.
Qed.

Lemma ensure_output_directory_present (d : string) (w : World) :
  os.path_exists d w = (Ok true, w) →
  runProbtrackx2GPU.ensure_output_directory d w
    = (Ok (), emit (EPrint ("Output Directory = " +:+ d)) w).
Proof.
  intros H. unfold runProbtrackx2GPU.ensure_output_directory.
  by rewrite (run_bind_ok _ _ _ _ _ H).
Qed.

Lemma ensure_output_directory_missing (d : string) (w : World) :
  os.path_exists d w = (Ok false, w) →
  runProbtrackx2GPU.ensure_output_directory d w
    = os.mkdir d (emit (EPrint ("Creating output directory -> " +:+ d)) w).
Proof.
  intros H. unfold runProbtrackx2GPU.ensure_output_directory.
  rewrite (run_bind_ok _ _ _ _ _ H). cbn [negb]. by rewrite run_print.
Qed.

Lemma ensure_output_directory_absent (d : string) (w : World) (q : list string) :
  resolve (cwd w) d = Some q → node_at (fs w) q = None →
  runProbtrackx2GPU.ensure_output_directory d w
    = os.mkdir d (emit (EPrint ("Creating output directory -> " +:+ d)) w).
Proof.
  intros Hres Hnone. apply ensure_output_directory_missing. by apply (absent_not_exists d w q).
Qed.

Lemma mkdir_inv (d : string) (w w1 : World) :
  os.mkdir d w = (Ok (), w1) →
  ∃ q, os.locate_new (fs w) (cwd w) d = inr q ∧ node_at (fs w) q = None
       ∧ w1 = set_fs (<[q := Dir]> (fs w)) w.
Proof.
  unfold os.mkdir. destruct (os.locate_new (fs w) (cwd w) d) as [e | q]; [done |].
  destruct (node_at (fs w) q) eqn:Hq; [done |].
  destruct (node_at (fs w) (parent q)) as [[c|]|]; [done | | done].
  intros [= <-]. by exists q.
Qed.

(** C8: the directory-setup step of both scripts, run on a directory that
    exists, returns normally and changes nothing.  Run on an absent one it
    creates it when the operating system can: [os.makedirs]
    ([registerYeoAtlas.py]) creates the missing ancestors too and needs
    that nothing on the way is a regular file; [os.mkdir]
    ([runProbtrackx2GPU.py]) needs the walk to the parent to succeed.  When
    it cannot, the step raises the error of the operating system and the
    tree stays as it was.  A second run after a successful first finds the
    directory and changes nothing. *)
Theorem directory_setup_is_idempotent (d : string) (w : World) :
  (os.path_exists d w = (Ok true, w) →
     registerYeoAtlas.ensure_outDir d w = (Ok (), w)
     ∧ runProbtrackx2GPU.ensure_output_directory d w
       = (Ok (), emit (EPrint ("Output Directory = " +:+ d)) w))
  ∧ (∀ q, resolve (cwd w) d = Some q → node_at (fs w) q = None → no_dotdot d →
       (∀ k content, node_at (fs w) (take k q) ≠ Some (File content)) →
       ∃ w', registerYeoAtlas.ensure_outDir d w = (Ok (), w')
             ∧ node_at (fs w') q = Some Dir
             ∧ keeps (fs w) (fs w')
             ∧ os.path_exists d w' = (Ok true, w'))
  ∧ (∀ q k content, resolve (cwd w) d = Some q → node_at (fs w) q = None →
       node_at (fs w) (take k q) = Some (File content) →
       ∃ e, (registerYeoAtlas.ensure_outDir d w).1 = Raise e
            ∧ fs (registerYeoAtlas.ensure_outDir d w).2 = fs w)
  ∧ (∀ q, os.locate_new (fs w) (cwd w) d = inr q → node_at (fs w) q = None →
       node_at (fs w) (parent q) = Some Dir →
       runProbtrackx2GPU.ensure_output_directory d w
       = (Ok (), set_fs (<[q := Dir]> (fs w))
                   (emit (EPrint ("Creating output directory -> " +:+ d)) w)))
  ∧ (∀ e, os.path_exists d w = (Ok false, w) →
       os.locate_new (fs w) (cwd w) d = inl e →
       runProbtrackx2GPU.ensure_output_directory d w
       = (Raise e, emit (EPrint ("Creating output directory -> " +:+ d)) w))
  ∧ (∀ w1, no_dotdot d → registerYeoAtlas.ensure_outDir d w = (Ok (), w1) →
       registerYeoAtlas.ensure_outDir d w1 = (Ok (), w1))
  ∧ (∀ w1, runProbtrackx2GPU.ensure_output_directory d w = (Ok (), w1) →
       runProbtrackx2GPU.ensure_output_directory d w1
         = (Ok (), emit (EPrint ("Output Directory = " +:+ d)) w1)).
Proof.
  assert (∀ q t w0, resolve (cwd w) d = Some q → no_dotdot d →
            os.mkdirs_from (fs w) [] q = Some t →
            fs w0 = t → cwd w0 = cwd w →
            os.path_exists d w0 = (Ok true, w0)) as Hthere.
  { intros q t w0 Hres Hno Ht Hfs Hcwd.
    apply (path_exists_at d w0 q Dir).
    - rewrite Hfs, Hcwd. apply locate_forward; [done | done |].
      intros k. by apply (mkdirs_from_creates q (fs w) t [] k).
    - rewrite Hfs. rewrite <- (firstn_all q).
      by apply (mkdirs_from_creates q (fs w) t [] (length q)). }
  split_and!.
  - intros Hex. split; [by apply ensure_outDir_present | by apply ensure_output_directory_present].
  - intros q Hres Hnone Hno Hfree.
    destruct (ensure_outDir_absent d w q Hres Hnone Hfree) as (t & Ht & Hrun).
    eexists. split; [exact Hrun |]. simpl. split_and!.
    + rewrite <- (firstn_all q). by apply (mkdirs_from_creates q (fs w) t [] (length q)).
    + by apply (mkdirs_from_keeps q _ _ []).
    + by apply (Hthere q t).
  - intros q k content Hres Hnone Hfile.
    rewrite (ensure_outDir_missing d w (absent_not_exists d w q Hres Hnone)).
    unfold os.makedirs. simpl cwd. simpl fs. rewrite Hres, Hnone.
    destruct (os.mkdirs_from (fs w) [] q) as [t|] eqn:Ht; [| by eexists].
    exfalso.
    pose proof (mkdirs_from_keeps q _ _ [] Ht _ _ Hfile) as Hkept.
    pose proof (mkdirs_from_creates q (fs w) t [] k eq_refl Ht) as Hdir.
    simpl in Hdir. congruence.
  - intros q Hloc Hnone Hparent.
    rewrite (ensure_output_directory_absent d w q (locate_resolve _ _ _ _ _ Hloc) Hnone).
    unfold os.mkdir. simpl cwd. simpl fs. by rewrite Hloc, Hnone, Hparent.
  - intros e Hno Hloc. rewrite (ensure_output_directory_missing d w Hno).
    unfold os.mkdir. simpl cwd. simpl fs. by rewrite Hloc.
  - intros w1 Hno Hrun. apply ensure_outDir_present.
    destruct (path_exists_total d w) as [[] Hex].
    + rewrite (ensure_outDir_present d w Hex) in Hrun. by injection Hrun as <-.
    + rewrite (ensure_outDir_missing d w Hex) in Hrun.
      unfold os.makedirs in Hrun. simpl cwd in Hrun. simpl fs in Hrun.
      destruct (resolve (cwd w) d) as [q|] eqn:Hres; [| done].
      destruct (node_at (fs w) q); [done |].
      destruct (os.mkdirs_from (fs w) [] q) as [t|] eqn:Ht; [| done].
      injection Hrun as <-. by apply (Hthere q t).
  - intros w1 Hrun. apply ensure_output_directory_present.
    destruct (path_exists_total d w) as [[] Hex].
    + rewrite (ensure_output_directory_present d w Hex) in Hrun. injection Hrun as <-.
      by apply (path_exists_same d w).
    + rewrite (ensure_output_directory_missing d w Hex) in Hrun.
      apply mkdir_inv in Hrun as (q & Hloc & Hnone & ->). simpl in Hloc, Hnone.
      apply (path_exists_at d _ q Dir); simpl.
      * apply (locate_created (fs w)); [done | by apply keeps_insert |].
        rewrite node_at_insert_absent by done. by rewrite decide_True.
      * rewrite node_at_insert_absent by done. by rewrite decide_True.
Qed.

End DirectorySetup.

Lemma directory_setup_is_idempotent_witness :
  (registerYeoAtlas.ensure_outDir "/out" Sample.world = (Ok (), Sample.world)
   ∧ runProbtrackx2GPU.ensure_output_directory "/out" Sample.world
     = (Ok (), emit (EPrint ("Output Directory = " +:+ "/out")) Sample.world))
  ∧ (∃ w', registerYeoAtlas.ensure_outDir "/subjects/sub01/Schaefer2018_labels" Sample.world
           = (Ok (), w')
           ∧ node_at (fs w') ["subjects"; "sub01"; "Schaefer2018_labels"] = Some Dir
           ∧ keeps (fs Sample.world) (fs w')
           ∧ os.path_exists "/subjects/sub01/Schaefer2018_labels" w' = (Ok true, w'))
  ∧ (∃ e, (registerYeoAtlas.ensure_outDir "/rois/notes.txt/Schaefer2018_labels"
             Sample.world).1 = Raise e
          ∧ fs (registerYeoAtlas.ensure_outDir "/rois/notes.txt/Schaefer2018_labels"
                  Sample.world).2 = fs Sample.world)
  ∧ runProbtrackx2GPU.ensure_output_directory "/out/S1" Sample.world
    = (Ok (), set_fs (<[["out"; "S1"] := Dir]> (fs Sample.world))
                (emit (EPrint ("Creating output directory -> " +:+ "/out/S1")) Sample.world))
  ∧ runProbtrackx2GPU.ensure_output_directory "/nowhere/S1" Sample.world
    = (Raise (FileNotFoundError "/nowhere/S1"),
       emit (EPrint ("Creating output directory -> " +:+ "/nowhere/S1")) Sample.world)
  ∧ registerYeoAtlas.ensure_outDir "/out" Sample.world = (Ok (), Sample.world)
  ∧ runProbtrackx2GPU.ensure_output_directory "/out"
      (emit (EPrint ("Output Directory = " +:+ "/out")) Sample.world)
    = (Ok (), emit (EPrint ("Output Directory = " +:+ "/out"))
                (emit (EPrint ("Output Directory = " +:+ "/out")) Sample.world)).
Proof.
  destruct (directory_setup_is_idempotent "/out" Sample.world)
    as (Hpresent & _ & _ & _ & _ & Htwice & Htwice').
  destruct (directory_setup_is_idempotent "/subjects/sub01/Schaefer2018_labels" Sample.world)
    as (_ & Hmakedirs & _).
  destruct (directory_setup_is_idempotent "/rois/notes.txt/Schaefer2018_labels" Sample.world)
    as (_ & _ & Hblocked & _).
  destruct (directory_setup_is_idempotent "/out/S1" Sample.world) as (_ & _ & _ & Hmkdir & _).
  destruct (directory_setup_is_idempotent "/nowhere/S1" Sample.world)
    as (_ & _ & _ & _ & Hfails & _).
  assert (no_dotdot "/out" ∧ no_dotdot "/subjects/sub01/Schaefer2018_labels") as [Hno1 Hno2].
  { split; vm_compute; intros H;
      repeat (apply elem_of_cons in H as [H | H]; [discriminate |]);
      by apply elem_of_nil in H. }
  split_and!.
  - apply Hpresent. vm_compute. reflexivity.
  - apply Hpresent. vm_compute. reflexivity.
  - apply (Hmakedirs ["subjects"; "sub01"; "Schaefer2018_labels"]);
      [vm_compute; reflexivity | vm_compute; reflexivity | exact Hno2 |].
    intros [|[|[|[|k]]]] content; vm_compute; discriminate.
  - apply (Hblocked ["rois"; "notes.txt"; "Schaefer2018_labels"] 2%nat "n");
      vm_compute; reflexivity.
  - apply (Hmkdir ["out"; "S1"]); vm_compute; reflexivity.
  - apply Hfails; vm_compute; reflexivity.
  - apply (Htwice _ Hno1). apply Hpresent. vm_compute. reflexivity.
  - apply Htwice'. apply Hpresent. vm_compute. reflexivity.
Defined.

Lemma directory_setup_counterexample :
  ¬ creates_when_absent runProbtrackx2GPU.ensure_output_directory "/nowhere/S1" Sample.world
  ∧ ¬ creates_when_absent registerYeoAtlas.ensure_outDir
        "/rois/notes.txt/Schaefer2018_labels" Sample.world.
Proof.
  split; intros H; destruct H as [Hok _]; try (vm_compute; reflexivity);
    vm_compute in Hok; discriminate.
Qed.

(** ** The geometry fix in a run *)

Section GeometryInARun.
Import runProbtrackx2GPU.
Variable sh : World → string → Child.
Variable today now : string.

Lemma spawned_emit_print (line : string) (w : World) :
  spawned (trace (emit (EPrint line) w)) = spawned (trace w).
Proof. simpl. rewrite spawned_app. simpl. by rewrite app_nil_r. Qed.






End GeometryInARun.



(** ** The tractography command *)

Section Tractography.
Import runProbtrackx2GPU.
Variable sh : World → string → Child.

Lemma join_plain (a b : string) :
  a ≠ "" → Str.endswith a "/" = false → Str.startswith b "/" = false →
  ospath.join a b = a +:+ "/" +:+ b.
Proof.
  intros Ha Hslash Hb. unfold ospath.join. rewrite Hb, Hslash.
  by rewrite bool_decide_eq_false_2.
Qed.

(** C9: [build_probtrackx_command] prints and launches, once and through
    [os.system], the string made of the selected binary path, [" -x "] and
    the network matrix path, [" -s "] and [merged] joined to the bedpost
    directory, [" -m "] and [nodif_brain_mask] joined to it, [" --dir="] and
    the output directory, then the fixed flags; for a bedpost directory
    that is not empty and has no trailing slash the two joined paths read
    [<bedpost_directory>/merged] and [<bedpost_directory>/nodif_brain_mask]. *)
Theorem build_probtrackx_command_string (output_directory bedpost_directory
    network_matrix : string) (cuda : bool) (dev : device) (w : World) :
  let binary := if cuda then "/usr/pubsw/packages/fsl/6.0.5.1/bin/probtrackx2_gpu"
                else "/usr/pubsw/packages/fsl/6.0.5.1/bin/probtrackx2" in
  let cmd := binary +:+ " -x " +:+ network_matrix
    +:+ " -s " +:+ ospath.join bedpost_directory "merged"
    +:+ " -m " +:+ ospath.join bedpost_directory "nodif_brain_mask"
    +:+ " --dir=" +:+ output_directory
    +:+ " -l -c 0.2 -S 2000 -P 5000 --fibthresh=0.01 --distthresh=0.0 --sampvox=0.0 --steplength=0.25 --forcedir --opd --network -V 1" in
  let r := build_probtrackx_command sh output_directory bedpost_directory network_matrix
             cuda dev w in
  r.1 = Ok ()
  ∧ trace r.2 = trace w ++ [EPrint cmd; ESpawn Os_system cmd]
  ∧ (bedpost_directory ≠ "" → Str.endswith bedpost_directory "/" = false →
     cmd = binary +:+ " -x " +:+ network_matrix
       +:+ " -s " +:+ bedpost_directory +:+ "/merged"
       +:+ " -m " +:+ bedpost_directory +:+ "/nodif_brain_mask"
       +:+ " --dir=" +:+ output_directory
       +:+ " -l -c 0.2 -S 2000 -P 5000 --fibthresh=0.01 --distthresh=0.0 --sampvox=0.0 --steplength=0.25 --forcedir --opd --network -V 1").
Proof.
  intros binary cmd r. split_and!.
  - done.
  - subst r. unfold build_probtrackx_command. simpl.
    rewrite <- app_assoc. simpl. by destruct cuda.
  - intros Hne Hslash. subst cmd.
    rewrite !join_plain by first [assumption | vm_compute; reflexivity].
    rewrite !append_assoc. reflexivity.
Qed.

End Tractography.

Lemma build_probtrackx_command_string_witness :
  trace (runProbtrackx2GPU.build_probtrackx_command Sample.inert "/out/S1" "/bp"
           "/rois/S1_network.txt" true runProbtrackx2GPU.device_cuda Sample.world).2
  = [ EPrint "/usr/pubsw/packages/fsl/6.0.5.1/bin/probtrackx2_gpu -x /rois/S1_network.txt -s /bp/merged -m /bp/nodif_brain_mask --dir=/out/S1 -l -c 0.2 -S 2000 -P 5000 --fibthresh=0.01 --distthresh=0.0 --sampvox=0.0 --steplength=0.25 --forcedir --opd --network -V 1";
      ESpawn Os_system "/usr/pubsw/packages/fsl/6.0.5.1/bin/probtrackx2_gpu -x /rois/S1_network.txt -s /bp/merged -m /bp/nodif_brain_mask --dir=/out/S1 -l -c 0.2 -S 2000 -P 5000 --fibthresh=0.01 --distthresh=0.0 --sampvox=0.0 --steplength=0.25 --forcedir --opd --network -V 1" ].
Proof.
  destruct (build_probtrackx_command_string Sample.inert "/out/S1" "/bp" "/rois/S1_network.txt"
              true runProbtrackx2GPU.device_cuda Sample.world) as (_ & Htrace & Hplain).
  rewrite Htrace, Hplain; [reflexivity | discriminate | reflexivity].
Defined.

(** ** Argument parsing in runProbtrackx2GPU.py *)

Section Arguments.
Import argparse.

Lemma find_option_spelling (spec : list argument) (tok : string) (a : argument) :
  find_option spec tok = Some a → a ∈ spec ∧ (tok = short a ∨ tok = long a).
Proof.
  unfold find_option. intros [Hin Hp]%find_some. split; [by apply list_elem_of_In |].
  apply orb_true_iff in Hp as [H | H]; apply bool_decide_eq_true in H; auto.
Qed.

(** Whatever ends up stored was there before or came with an option that
    occurs on the command line. *)
Lemma consume_stored (spec : list argument) (n : nat) :
  ∀ argv acc p k,
    (length argv ≤ n)%nat →
    consume spec argv acc = Parsed p → is_Some (stored p !! k) →
    is_Some (stored acc !! k)
    ∨ ∃ tok a, tok ∈ argv ∧ find_option spec tok = Some a ∧ dest a = k.
Proof.
  induction n as [|n IH]; intros argv acc p k Hlen Hrun Hk.
  - destruct argv; [| simpl in Hlen; lia]. simpl in Hrun. injection Hrun as <-. by left.
  - destruct argv as [|tok rest]; [simpl in Hrun; injection Hrun as <-; by left |].
    simpl in Hrun, Hlen.
    destruct (is_help tok); [done |].
    destruct (find_option spec tok) as [a|] eqn:Hfind.
    + destruct (act a).
      * destruct rest as [|v rest']; [done |].
        destruct (Str.startswith v "-"); [by repeat case_match |].
        simpl in Hlen.
        destruct (IH rest' _ p k ltac:(lia) Hrun Hk) as [Hacc | (t & a' & Ht & Ha' & Hd)].
        -- simpl in Hacc. destruct (decide (dest a = k)) as [Heq | Hne].
           ++ right. exists tok, a. split_and!; [set_solver | done | done].
           ++ left. by rewrite lookup_insert_ne in Hacc.
        -- right. exists t, a'. split_and!; [set_solver | done | done].
      * destruct (IH rest _ p k ltac:(lia) Hrun Hk) as [Hacc | (t & a' & Ht & Ha' & Hd)].
        -- by left.
        -- right. exists t, a'. split_and!; [set_solver | done | done].
    + destruct (Str.startswith tok "-"); [done |].
      destruct (IH rest _ p k ltac:(lia) Hrun Hk) as [Hacc | (t & a' & Ht & Ha' & Hd)].
      * by left.
      * right. exists t, a'. split_and!; [set_solver | done | done].
Qed.

Lemma consume_store_step (spec : list argument) (tok v : string) (rest : list string)
    (acc : parsed) (a : argument) :
  is_help tok = false → find_option spec tok = Some a → act a = store →
  Str.startswith v "-" = false →
  consume spec (tok :: v :: rest) acc
  = consume spec rest (mkParsed (<[dest a := v]> (stored acc)) (switches acc) (extras acc)).
Proof. intros Hh Hf Ha Hv. simpl. by rewrite Hh, Hf, Ha, Hv. Qed.

(** A successful parse saw every required option on the command line. *)
Lemma parse_args_saw_required (spec : list argument) (argv : list string) (p : parsed)
    (a : argument) :
  parse_args spec argv = Parsed p → a ∈ spec → required a = true →
  ∃ tok a', tok ∈ argv ∧ a' ∈ spec ∧ dest a' = dest a ∧ (tok = short a' ∨ tok = long a').
Proof.
  unfold parse_args. intros Hrun Ha Hreq.
  destruct (consume spec argv (mkParsed ∅ ∅ false)) as [p'| |] eqn:Hc; [| done | done].
  destruct (forallb _ spec) eqn:Hall; [| done].
  destruct (extras p'); [done |]. injection Hrun as <-.
  rewrite forallb_forall in Hall. specialize (Hall a (proj1 (list_elem_of_In _ _) Ha)).
  rewrite Hreq in Hall. simpl in Hall. apply bool_decide_eq_true in Hall.
  destruct (consume_stored spec (length argv) argv _ p' (dest a) (le_n _) Hc Hall)
    as [Hacc | (tok & a' & Htok & Hfind & Hdest)].
  - simpl in Hacc. rewrite lookup_empty in Hacc. by destruct Hacc.
  - apply find_option_spelling in Hfind as [Ha' Hsp]. by exists tok, a'.
Qed.

End Arguments.

Section ProbtrackxArguments.
Import runProbtrackx2GPU.

(** With the four required options given, [parse_args] returns a namespace
    that carries their values, no network file and both switches off. *)
Lemma parse_args_accepts (i s o b : string) (w : World) :
  Str.startswith i "-" = false → Str.startswith s "-" = false →
  Str.startswith o "-" = false → Str.startswith b "-" = false →
  parse_args ["-i"; i; "-s"; s; "-o"; o; "-b"; b] w
  = (Ok (mkNamespace i s o b None false false), w).
Proof.
  intros Hi Hs Ho Hb. unfold parse_args, argparse.parse_args.
  rewrite (consume_store_step parser "-i" i _ _
             (argparse.add_argument "-i" "--input_directory" argparse.store true))
    by first [assumption | reflexivity].
  rewrite (consume_store_step parser "-s" s _ _
             (argparse.add_argument "-s" "--subject" argparse.store true))
    by first [assumption | reflexivity].
  rewrite (consume_store_step parser "-o" o _ _
             (argparse.add_argument "-o" "--output_directory" argparse.store true))
    by first [assumption | reflexivity].
  rewrite (consume_store_step parser "-b" b _ _
             (argparse.add_argument "-b" "--bedpost_directory" argparse.store true))
    by first [assumption | reflexivity].
  vm_compute. reflexivity.
Qed.

(** It returns only when each of them is on the command line. *)
Lemma parse_args_rejects_missing (argv : list string) (w w' : World) (ns : Namespace) :
  parse_args argv w = (Ok ns, w') →
  ("-i" ∈ argv ∨ "--input_directory" ∈ argv)
  ∧ ("-s" ∈ argv ∨ "--subject" ∈ argv)
  ∧ ("-o" ∈ argv ∨ "--output_directory" ∈ argv)
  ∧ ("-b" ∈ argv ∨ "--bedpost_directory" ∈ argv).
Proof.
  unfold parse_args. destruct (argparse.parse_args parser argv) as [p| |] eqn:Hp; [| done | done].
  intros _.
  assert (∀ a, a ∈ parser → argparse.required a = true →
            argparse.short a ∈ argv ∨ argparse.long a ∈ argv) as Hreq.
  { intros a Ha Hr.
    destruct (parse_args_saw_required parser argv p a Hp Ha Hr)
      as (tok & a' & Htok & Ha' & Hdest & Hsp).
    assert (a' = a) as ->.
    { unfold parser in Ha, Ha'.
      repeat (apply elem_of_cons in Ha as [-> | Ha]; [|]);
        try (by apply elem_of_nil in Ha);
        repeat (apply elem_of_cons in Ha' as [-> | Ha']; [|]);
        try (by apply elem_of_nil in Ha'); try reflexivity;
        vm_compute in Hdest; discriminate. }
    destruct Hsp as [<- | <-]; auto. }
  split_and!.
  - apply (Hreq (argparse.add_argument "-i" "--input_directory" argparse.store true));
      [unfold parser; set_solver | done].
  - apply (Hreq (argparse.add_argument "-s" "--subject" argparse.store true));
      [unfold parser; set_solver | done].
  - apply (Hreq (argparse.add_argument "-o" "--output_directory" argparse.store true));
      [unfold parser; set_solver | done].
  - apply (Hreq (argparse.add_argument "-b" "--bedpost_directory" argparse.store true));
      [unfold parser; set_solver | done].
Qed.

End ProbtrackxArguments.

(** ** registerYeoAtlas.py: what a run amounts to *)

Section RegisterYeoAtlas.
Import registerYeoAtlas.
Variable sh : World → string → Child.

(** C1: each script's [parse_args] is to return the parsed arguments, or
    reject the command line.  In [runProbtrackx2GPU.py] it does (see
    [parse_args_accepts] and [parse_args_rejects_missing] above).  In
    [registerYeoAtlas.py] it returns [None] whatever the command line, and
    [main] stops at its first attribute access. *)
Theorem registerYeoAtlas_parse_args_returns_None (globals : gmap string string) (w : World) :
  parse_args w = (Ok None, w)
  ∧ main sh globals w = (Raise (AttributeError "NoneType" "subject_directory"), w).
Proof. split; reflexivity. Qed.

Lemma surfReg_raises (subject subject_dir : string) (w : World) :
  surfReg sh module_globals subject subject_dir w
    = (Raise (NameError "SUBJECTS_DIR"),
       emit (EPrint ("Processing HEMI " +:+ "lh" +:+ " for " +:+ subject)) w).
Proof. reflexivity. Qed.

Lemma symlinkCmd_first_word (f_LUT subDir : string) :
  ∃ r, Str.first_word (symlinkCmd f_LUT subDir) = String "o" r.
Proof.
  unfold symlinkCmd, Str.first_word. rewrite chars_app. simpl. eauto.
Qed.

Lemma symlinkCmd_is_no_invocation (f_LUT subDir : string) :
  is_external_invocation (symlinkCmd f_LUT subDir) = false.
Proof.
  destruct (symlinkCmd_first_word f_LUT subDir) as [r Hr].
  unfold is_external_invocation, external_binaries, invokes. rewrite Hr. reflexivity.
Qed.

(** C2: every string handed to the shell is to run one of the six external
    binaries, the look-up-table placement included.  The placement string
    is Python source text ([os.symlink(...]), whatever the table and the
    subject are, and it is what [callSub] launches. *)
Theorem lut_placement_is_not_an_external_invocation :
  (∀ f_LUT subDir, is_external_invocation (symlinkCmd f_LUT subDir) = false)
  ∧ spawned (trace (main_loop Sample.inert module_globals "/subjects" "/atlas/lut.txt"
                      Sample.world).2)
    = [ (Popen_pipe, "os.symlink(/atlas/lut.txt, os.path.join(/subjects/sub01,Schaefer2018_1000Parcels_7Networks_order_LUT.txt");
        (Call_devnull, "os.symlink(/atlas/lut.txt, os.path.join(/subjects/sub01,Schaefer2018_1000Parcels_7Networks_order_LUT.txt") ].
Proof.
  split; [apply symlinkCmd_is_no_invocation |].
  vm_compute. reflexivity.
Qed.

(** C10: every listed entry other than [fsaverage6] is to be processed
    through all five steps.  [main] never reaches the listing;
    and its loop body, given the values [main] would have read, skips
    [fsaverage6] but for any other entry ends in an exception: past the
    look-up-table step [surfReg] reads [SUBJECTS_DIR], which is bound in
    [main] only. *)
Theorem no_entry_is_processed :
  (∀ globals w, main sh globals w
                = (Raise (AttributeError "NoneType" "subject_directory"), w))
  ∧ (∀ SUBJECTS_DIR f_LUT subj w,
       if bool_decide (subj = "fsaverage6")
       then process_entry sh module_globals SUBJECTS_DIR f_LUT subj w
            = (Ok (), emit (EPrint "subj") w)
       else ∃ e, (process_entry sh module_globals SUBJECTS_DIR f_LUT subj w).1 = Raise e)
  ∧ (main_loop Sample.inert module_globals "/subjects" "/atlas/lut.txt" Sample.world).1
    = Raise (NameError "SUBJECTS_DIR")
  ∧ Forall (λ cmd, is_external_invocation cmd = false)
      (commands (trace (main_loop Sample.inert module_globals "/subjects" "/atlas/lut.txt"
                          Sample.world).2)).
Proof.
  split_and!.
  - reflexivity.
  - intros SUBJECTS_DIR f_LUT subj w. unfold process_entry.
    case_bool_decide as Hsubj.
    + subst subj. reflexivity.
    + rewrite bool_decide_eq_true_2 by done.
      rewrite !run_print, run_bind.
      match goal with |- context [ensure_outDir ?d ?w'] =>
        destruct (ensure_outDir d w') as [[[]|e] w1] end; [| by eexists].
      rewrite !run_print, run_bind.
      match goal with |- context [callSub sh ?c ?w'] =>
        destruct (callSub sh c w') as [[[]|e] w2] end; [| by eexists].
      rewrite run_bind, surfReg_raises. by eexists.
  - vm_compute. reflexivity.
  - vm_compute. repeat constructor.
Qed.

End RegisterYeoAtlas.

(** ** Choosing the device *)

Section Device.
Import runProbtrackx2GPU.
Variable sh : World → string → Child.
Variable today now : string.

(** C3: [set_device] is to give a well-defined [(device, cuda)] pair in
    every case, and a machine without CUDA is to get the CPU binary.  Without a
    CUDA device [set_device] raises [UnboundLocalError] (its [else] branch
    never assigns [cuda]), so a run without [--cpu] on such a machine stops
    in "Device Configuration", before any command is built.  The other
    two cases are as claimed: [--cpu] gives [(cpu, False)] without asking
    [set_device]; no [--cpu] with a CUDA device gives [(cuda, True)]; and
    the command starts with the GPU binary exactly when [cuda] is true. *)
Theorem set_device_without_gpu_raises :
  (∀ w, set_device false w = (Raise (UnboundLocalError "cuda"), w))
  ∧ (∀ i s o b n g w,
       main_body sh false today now (mkNamespace i s o b n g false) w
       = (Raise (UnboundLocalError "cuda"),
          emit (EPrint "#------------------- Device Configuration -------------------") w))
  ∧ (∀ available w,
       configure_device available false w
       = (Ok (device_cpu, false), emit (EConsole "Using cpu device.") w))
  ∧ (∀ w, (configure_device true true w).1 = Ok (device_cuda, true))
  ∧ (∀ out bedpost nm cuda,
       Str.first_word (probtrackxCommand out bedpost nm cuda)
       = if cuda then "/usr/pubsw/packages/fsl/6.0.5.1/bin/probtrackx2_gpu"
         else "/usr/pubsw/packages/fsl/6.0.5.1/bin/probtrackx2").
Proof.
  split_and!; try reflexivity.
  intros out bedpost nm cuda. apply probtrackx_first_word.
Qed.

End Device.

(** ** How commands are launched *)


Section Launching.
Variable sh : World → string → Child.

Lemma decodable_all (lines : list string) :
  Str.undecodable lines = None → Str.decodable lines = lines.
Proof.
  induction lines as [|l ls IH]; [done |]. simpl.
  destruct (Str.utf8 l); [| done]. intros H. by rewrite IH.
Qed.

(** The loop of [callSub]: the lines are printed until one does not
    decode. *)
Lemma print_decoded (lines : list string) (w : World) :
  for_each lines (λ line, text ← decode_utf8 line; print text) w
  = (match Str.undecodable lines with
     | None => Ok ()
     | Some bad => Raise (UnicodeDecodeError bad)
     end,
     mkWorld (fs w) (cwd w) (environ w) (trace w ++ (EPrint <$> Str.decodable lines))).
Proof.
  revert w. induction lines as [|l ls IH]; intros w; cbn [for_each Str.undecodable Str.decodable].
  - destruct w. simpl. by rewrite app_nil_r.
  - rewrite !run_bind. unfold decode_utf8 at 1. destruct (Str.utf8 l).
    + cbn [mret M_ret print]. rewrite IH. simpl. by rewrite <- app_assoc.
    + destruct w. simpl. by rewrite app_nil_r.
Qed.

(** What [callSub] does, in full. *)
Lemma callSub_run (cmd : string) (w : World) :
  let first := sh (emit (ESpawn Popen_pipe cmd) w) cmd in
  let shown := mkWorld (child_fs first) (cwd w) (environ w)
                 (trace w ++ [ESpawn Popen_pipe cmd]
                    ++ (EPrint <$> Str.decodable (child_lines first))) in
  registerYeoAtlas.callSub sh cmd w
  = match Str.undecodable (child_lines first) with
    | None =>
        (Ok (), set_fs (child_fs (sh (emit (ESpawn Call_devnull cmd) shown) cmd))
                  (emit (ESpawn Call_devnull cmd) shown))
    | Some bad =>
        (Raise (UnicodeDecodeError bad),
         mkWorld (child_fs_cut first) (cwd w) (environ w) (trace shown))
    end.
Proof.
  intros first shown. unfold registerYeoAtlas.callSub.
  erewrite run_bind_ok by reflexivity. fold first.
  rewrite run_bind. unfold with_process. rewrite print_decoded. simpl.
  destruct (Str.undecodable (child_lines first)); simpl; by rewrite <- !app_assoc.
Qed.




End Launching.




(** ** What the wrappers write themselves *)

#[global] Instance only_adds_directories_preorder T : PreOrder (only_adds_directories T).
Proof.
  split.
  - intros w. split; [done |]. intros p. by left.
  - intros w1 w2 w3 [C1 F1] [C2 F2]. split; [congruence |].
    intros p. destruct (F1 p) as [H1 | (N1 & D1 & T1)], (F2 p) as [H2 | (N2 & D2 & T2)].
    + left. congruence.
    + right. rewrite <- H1. split_and!; [done | done |]. by rewrite <- C1.
    + right. rewrite H2. done.
    + congruence.
Qed.

Section FrameFacts.

Lemma print_off line : off_disk (print line).
Proof. done. Qed.
Lemma console_off line : off_disk (console_success line).
Proof. done. Qed.
Lemma path_exists_off s : off_disk (os.path_exists s).
Proof. done. Qed.
Lemma listdir_off s : off_disk (os.listdir s).
Proof. intros w. unfold os.listdir. by repeat case_match. Qed.
Lemma setenv_off k v : off_disk (os.setenv k v).
Proof. done. Qed.
Lemma getenv_off k : off_disk (os.getenv k).
Proof. done. Qed.
Lemma read_lines_off s : off_disk (read_lines s).
Proof. intros w. unfold read_lines. by repeat case_match. Qed.
Lemma decode_off data : off_disk (decode_utf8 data).
Proof. intros w. unfold decode_utf8. by case_match. Qed.

Lemma spawn_off sh api cmd : inert_shell sh → off_disk (spawn sh api cmd).
Proof. intros Hsh w. simpl. by rewrite (proj1 (Hsh _ _)). Qed.

Lemma os_system_off sh cmd : inert_shell sh → off_disk (os_system sh cmd).
Proof. intros Hsh w. simpl. by rewrite (proj1 (Hsh _ _)). Qed.

Lemma callSub_off sh cmd : inert_shell sh → off_disk (registerYeoAtlas.callSub sh cmd).
Proof.
  intros Hsh w. rewrite callSub_run.
  destruct (Str.undecodable _); simpl.
  - by rewrite (proj2 (Hsh _ _)).
  - by rewrite !(proj1 (Hsh _ _)).
Qed.

Context (T : list string → list string → Prop).

Lemma still_preserves {A} (m : M A) : off_disk m → preserves (same_outside T) m.
Proof. intros H w. destruct (H w) as [Hc Hf]. split; [done |]. intros p _. by rewrite Hf. Qed.

Lemma still_adds {A} (m : M A) : off_disk m → preserves (only_adds_directories T) m.
Proof. intros H w. destruct (H w) as [Hc Hf]. split; [done |]. intros p. left. by rewrite Hf. Qed.

Lemma insert_outside (w : World) (q : list string) (n : node) :
  T (cwd w) q → same_outside T w (set_fs (<[q := n]> (fs w)) w).
Proof.
  intros Hq. split; [done |]. intros p Hp. simpl.
  apply lookup_insert_ne. by intros ->.
Qed.

Lemma mkdir_touches s :
  (∀ c q, resolve c s = Some q → T c q) → preserves (same_outside T) (os.mkdir s).
Proof.
  intros HT w. unfold os.mkdir.
  destruct (os.locate_new (fs w) (cwd w) s) as [e | q] eqn:Hloc; [reflexivity |].
  repeat case_match; try reflexivity. apply insert_outside.
  by apply HT, (locate_resolve _ _ _ _ _ Hloc).
Qed.

Lemma open_w_touches s :
  (∀ c q, resolve c s = Some q → T c q) →
  ∀ w, same_outside T w (open_w s w).2 ∧ ∀ q, (open_w s w).1 = Ok q → T (cwd w) q.
Proof.
  intros HT w. unfold open_w.
  destruct (Str.endswith s "/"); [by destruct (os.locate_new _ _ _) |].
  destruct (os.locate (fs w) (cwd w) s) as [e | q] eqn:Hloc; [by split |].
  apply locate_resolve in Hloc.
  repeat case_match; (split; [try reflexivity; by apply insert_outside, HT |]);
    intros ? ?; simplify_eq/=; by apply HT.
Qed.

Lemma f_write_touches (q : list string) (text : string) (c : list string) :
  T c q → ∀ w, cwd w = c → same_outside T w (f_write q text w).2.
Proof.
  intros HT w Hc. unfold f_write. repeat case_match; try reflexivity.
  apply insert_outside. by rewrite Hc.
Qed.

Lemma makedirs_adds s :
  (∀ c q p, resolve c s = Some q → p `prefix_of` q → T c p) →
  preserves (only_adds_directories T) (os.makedirs s).
Proof.
  intros HT w. unfold os.makedirs.
  destruct (resolve (cwd w) s) as [q|] eqn:Hres; [| reflexivity].
  destruct (node_at (fs w) q); [reflexivity |].
  destruct (os.mkdirs_from (fs w) [] q) as [t|] eqn:Ht; [| reflexivity].
  split; [done |]. intros p. simpl.
  destruct (mkdirs_from_frame q (fs w) t [] p Ht) as [Hsame | (Hnone & Hdir & Hpre)];
    [by left | right]. split_and!; [done | done |]. by apply (HT _ q).
Qed.

End FrameFacts.

Section NetworkFileFrame.
Import runProbtrackx2GPU.

Lemma f_write_elsewhere (q : list string) (text : string) (w : World) :
  cwd (f_write q text w).2 = cwd w
  ∧ ∀ p, p ≠ q → fs (f_write q text w).2 !! p = fs w !! p.
Proof.
  unfold f_write. repeat case_match; (split; [done |]); intros p Hp; try done.
  simpl. by apply lookup_insert_ne.
Qed.

Lemma write_loop_elsewhere (q : list string) (items : list string) :
  ∀ w, let r := for_each items (λ item, f_write q (item +:+ nl)) w in
       cwd r.2 = cwd w ∧ ∀ p, p ≠ q → fs r.2 !! p = fs w !! p.
Proof.
  induction items as [|item items IH]; intros w; [done |].
  cbn [for_each]. cbv zeta. rewrite run_bind.
  destruct (f_write_elsewhere q (item +:+ nl) w) as [Hc Hf].
  destruct (f_write q (item +:+ nl) w) as [[[] | e] w1]; [| done].
  destruct (IH w1) as [Hc' Hf']. simpl in *. split; [congruence |].
  intros p Hp. by rewrite Hf', Hf.
Qed.

Lemma get_roi_list_touches (T : list string → list string → Prop)
    (roi_path subject date : string) :
  (∀ c q, resolve c (ospath.join roi_path (subject +:+ "_network_" +:+ date +:+ ".txt"))
          = Some q → T c q) →
  preserves (same_outside T) (get_roi_list roi_path subject date).
Proof.
  intros HT w. unfold get_roi_list. rewrite run_bind.
  destruct (listdir_off roi_path w) as [Hc0 Hf0].
  destruct (os.listdir roi_path w) as [[files | e] w0]; simpl in Hc0, Hf0.
  2: { split; simpl; [done | intros p _; by rewrite Hf0]. }
  rewrite run_bind.
  destruct (open_w_touches T _ HT w0) as [[Hc1 Hf1] Hq].
  destruct (open_w _ w0) as [[q | e] w1]; simpl in Hc1, Hf1, Hq.
  2: { split; simpl; [congruence |]. intros p Hp.
       rewrite Hf1, Hf0; [done |]. by rewrite Hc0. }
  specialize (Hq q eq_refl). rewrite run_bind.
  match goal with |- context [for_each ?items _ w1] =>
    destruct (write_loop_elsewhere q items w1) as [Hc2 Hf2];
    destruct (for_each items (λ item, f_write q (item +:+ nl)) w1) as [[[] | e] w2]
  end; simpl in Hc2, Hf2; (split; simpl; [congruence |]); intros p Hp;
    (rewrite Hf2, Hf1, Hf0; [done | by rewrite Hc0 |]);
    intros ->; apply Hp; by rewrite <- Hc0.
Qed.

End NetworkFileFrame.

Ltac frame_step :=
  lazymatch goal with
  | |- preserves _ (raise _ ≫= _) => apply preserves_raise_bind; apply _
  | |- preserves _ (mret _) => apply preserves_ret; apply _
  | |- preserves _ (raise _) => apply preserves_raise; apply _
  | |- preserves (same_outside _) (os.mkdir _) => apply mkdir_touches
  | |- preserves (same_outside _) (runProbtrackx2GPU.get_roi_list _ _ _) =>
      apply get_roi_list_touches
  | |- preserves (only_adds_directories _) (os.makedirs _) => apply makedirs_adds
  | |- preserves _ (for_each _ _) => apply preserves_for_each; [apply _ | intros ? ?]
  | |- preserves _ (_ ≫= _) => apply preserves_bind; [apply _ | | intros ?]
  | |- preserves _ (match ?x with _ => _ end) => destruct x eqn:?
  | |- preserves (same_outside _) _ => apply still_preserves
  | |- preserves (only_adds_directories _) _ => apply still_adds
  | |- off_disk (print _) => apply print_off
  | |- off_disk (console_success _) => apply console_off
  | |- off_disk (os.path_exists _) => apply path_exists_off
  | |- off_disk (os.listdir _) => apply listdir_off
  | |- off_disk (os.setenv _ _) => apply setenv_off
  | |- off_disk (os.getenv _) => apply getenv_off
  | |- off_disk (read_lines _) => apply read_lines_off
  | |- off_disk (os_system _ _) => apply os_system_off
  | |- off_disk (registerYeoAtlas.callSub _ _) => apply callSub_off
  end.

Section Frame.
Variable sh : World → string → Child.
Hypothesis sh_inert : inert_shell sh.

Lemma probtrackx_frame cuda_is_available today now args :
  preserves (same_outside (probtrackx_writes args today))
    (runProbtrackx2GPU.main_body sh cuda_is_available today now args).
Proof.
  unfold runProbtrackx2GPU.main_body, runProbtrackx2GPU.configure_device,
    runProbtrackx2GPU.set_device, runProbtrackx2GPU.ensure_output_directory,
    runProbtrackx2GPU.set_geometry, runProbtrackx2GPU.build_probtrackx_command.
  repeat first [ frame_step | assumption ].
  - intros c q Hq. by left.
  - intros c q Hq. by right.
Qed.

Lemma process_entry_adds SUBJECTS_DIR f_LUT (entries : list string) (subj : string) :
  subj ∈ entries →
  preserves (only_adds_directories (registerYeoAtlas_writes SUBJECTS_DIR entries))
    (registerYeoAtlas.process_entry sh registerYeoAtlas.module_globals SUBJECTS_DIR f_LUT subj).
Proof.
  intros Hin.
  unfold registerYeoAtlas.process_entry,
    registerYeoAtlas.ensure_outDir, registerYeoAtlas.surfReg, registerYeoAtlas.parc2seg,
    registerYeoAtlas.annot2label, registerYeoAtlas.global,
    registerYeoAtlas.module_globals.
  rewrite !lookup_empty. cbv beta iota.
  case_bool_decide as Hsubj; repeat first [ frame_step | assumption ].
  intros c q p Hq Hp. by exists subj, q.
Qed.

Lemma registerYeoAtlas_frame SUBJECTS_DIR f_LUT (w : World) (entries : list string) :
  os.listdir SUBJECTS_DIR w = (Ok entries, w) →
  only_adds_directories (registerYeoAtlas_writes SUBJECTS_DIR entries) w
    (registerYeoAtlas.main_loop sh registerYeoAtlas.module_globals SUBJECTS_DIR f_LUT w).2.
Proof.
  intros Hlist. unfold registerYeoAtlas.main_loop. rewrite (run_bind_ok _ _ _ _ _ Hlist).
  apply preserves_for_each; [apply _ |]. intros subj Hin. by apply process_entry_adds.
Qed.

End Frame.

(** C5: the specification has the wrapper create nothing on disk itself.
    The code does create things: the output directory when it is absent
    ([os.mkdir], and [os.makedirs] with the ancestors it needs), and the
    network text file that [get_roi_list] writes when no [--network] is
    given.  That is all: when the launched commands leave the disk alone,
    a run of [runProbtrackx2GPU.py] leaves every location but those two,
    and the working directory, as it found them; and the loop of
    [registerYeoAtlas.py] over the listed entries only adds directories,
    each on the way to the label directory of a listed entry other than
    [fsaverage6], and changes nothing that was there. *)
Theorem wrapper_writes_only_its_own_outputs (sh : World → string → Child) :
  inert_shell sh →
  (∀ cuda_is_available today now args w,
     let w' := (runProbtrackx2GPU.main_body sh cuda_is_available today now args w).2 in
     cwd w' = cwd w
     ∧ ∀ p, ¬ probtrackx_writes args today (cwd w) p → fs w' !! p = fs w !! p)
  ∧ (∀ SUBJECTS_DIR f_LUT w entries,
       os.listdir SUBJECTS_DIR w = (Ok entries, w) →
       let w' := (registerYeoAtlas.main_loop sh registerYeoAtlas.module_globals
                    SUBJECTS_DIR f_LUT w).2 in
       cwd w' = cwd w
       ∧ ∀ p, fs w' !! p = fs w !! p
              ∨ (fs w !! p = None ∧ fs w' !! p = Some Dir
                 ∧ registerYeoAtlas_writes SUBJECTS_DIR entries (cwd w) p)).
Proof.
  intros Hsh. split.
  - intros. by apply probtrackx_frame.
  - intros. by apply registerYeoAtlas_frame.
Qed.

Lemma wrapper_writes_only_its_own_outputs_witness :
  fs (runProbtrackx2GPU.main_body Sample.inert true "20240101" "now" Sample.args Sample.world).2
    !! ["rois"; "a.nii"]
  = fs Sample.world !! ["rois"; "a.nii"]
  ∧ fs (registerYeoAtlas.main_loop Sample.inert registerYeoAtlas.module_globals
          "/subjects" "/atlas/lut.txt" Sample.world).2 !! ["subjects"; "sub01"]
    = fs Sample.world !! ["subjects"; "sub01"].
Proof.
  destruct (wrapper_writes_only_its_own_outputs Sample.inert (λ w cmd, conj eq_refl eq_refl))
    as [Hrun Hloop].
  split.
  - apply Hrun. intros [H | [_ H]]; vm_compute in H; discriminate.
  - destruct (Hloop "/subjects" "/atlas/lut.txt" Sample.world
                (children Sample.disk ["subjects"]) ltac:(vm_compute; reflexivity))
      as [_ Hfs].
    destruct (Hfs ["subjects"; "sub01"]) as [H | (Hnone & _)]; [exact H |].
    vm_compute in Hnone. discriminate.
Defined.

Lemma wrapper_writes_counterexample :
  ¬ leaves_disk_alone
      (runProbtrackx2GPU.get_roi_list "/rois" "S1" "20240101") Sample.world
  ∧ ¬ leaves_disk_alone
        (runProbtrackx2GPU.ensure_output_directory "/out/S1.probtrackx.network.20240101")
        Sample.world
  ∧ ¬ leaves_disk_alone
        (registerYeoAtlas.ensure_outDir "/subjects/sub01/Schaefer2018_labels") Sample.world.
Proof.
  unfold leaves_disk_alone. split_and!; intros H.
  - apply (f_equal (λ t, t !! ["rois"; "S1_network_20240101.txt"])) in H.
    vm_compute in H. discriminate.
  - apply (f_equal (λ t, t !! ["out"; "S1.probtrackx.network.20240101"])) in H.
    vm_compute in H. discriminate.
  - apply (f_equal (λ t, t !! ["subjects"; "sub01"; "Schaefer2018_labels"])) in H.
    vm_compute in H. discriminate.
Qed.

(** * What else the code guarantees *)

(** ** Which programs are launched *)

Section MoreFirstWord.

Lemma first_word_chars_blank (la lb : list ascii) :
  existsb Ascii.is_space la = true →
  Str.first_word_chars (la ++ lb) = Str.first_word_chars la.
Proof.
  induction la as [|a la IH]; simpl; [done |].
  destruct (Ascii.is_space a); [done |]. simpl. intros H. by rewrite IH.
Qed.

(** A literal that already contains a blank fixes the first word. *)
Lemma first_word_lit (lit rest : string) :
  existsb Ascii.is_space (Str.chars lit) = true →
  Str.first_word (lit +:+ rest) = Str.first_word lit.
Proof.
  intros H. unfold Str.first_word. by rewrite chars_app, first_word_chars_blank.
Qed.

Lemma invokes_lit (b lit rest : string) :
  existsb Ascii.is_space (Str.chars lit) = true → Str.first_word lit = b →
  invokes b (lit +:+ rest) = true.
Proof.
  intros Hblank Hb. unfold invokes. rewrite first_word_lit, Hb by done.
  by rewrite bool_decide_eq_true_2.
Qed.

Lemma runs_one_of_lit (bins : list string) (b lit rest : string) (api : spawn_api) :
  b ∈ bins → existsb Ascii.is_space (Str.chars lit) = true → Str.first_word lit = b →
  runs_one_of bins (ESpawn api (lit +:+ rest)).
Proof.
  intros Hin Hblank Hb. unfold runs_one_of. apply existsb_exists.
  exists b. split; [by apply list_elem_of_In | by apply invokes_lit].
Qed.

End MoreFirstWord.

Section Builders.
Import registerYeoAtlas.
Variable sh : World → string → Child.

Ltac builder_auto b :=
  repeat first
    [ trace_step | exact I
    | apply (runs_one_of_lit _ b); [repeat constructor | reflexivity | reflexivity] ].

(** Each command builder of [registerYeoAtlas.py] launches its own
    FreeSurfer program and nothing else, whatever the module-level names
    are bound to: [surfReg] only [mri_surf2surf], [parc2seg] only
    [mri_aparc2aseg], [annot2label] only [mri_annotation2label]. *)
Theorem builders_launch_their_binary (globals : gmap string string)
    (subject dir : string) (w : World) :
  (∃ t, trace (surfReg sh globals subject dir w).2 = trace w ++ t
        ∧ Forall (runs_one_of ["mri_surf2surf"]) t)
  ∧ (∃ t, trace (parc2seg sh subject dir w).2 = trace w ++ t
          ∧ Forall (runs_one_of ["mri_aparc2aseg"]) t)
  ∧ (∃ t, trace (annot2label sh subject dir w).2 = trace w ++ t
          ∧ Forall (runs_one_of ["mri_annotation2label"]) t).
Proof.
  split_and!.
  - revert w. change (preserves (extends_with (runs_one_of ["mri_surf2surf"]))
                        (surfReg sh globals subject dir)).
    unfold surfReg, callSub, global. builder_auto "mri_surf2surf".
  - revert w. change (preserves (extends_with (runs_one_of ["mri_aparc2aseg"]))
                        (parc2seg sh subject dir)).
    unfold parc2seg, callSub. builder_auto "mri_aparc2aseg".
  - revert w. change (preserves (extends_with (runs_one_of ["mri_annotation2label"]))
                        (annot2label sh subject dir)).
    unfold annot2label, callSub. builder_auto "mri_annotation2label".
Qed.

End Builders.

Section MoreRunning.
Context (R : relation World) `{!PreOrder R}.

(** A bind whose first part is known to answer within [Q]. *)
Lemma preserves_bind_post {A B} (Q : res A → Prop) (m : M A) (f : A → M B) :
  (∀ w : World, Q (m w).1) → preserves R m → (∀ a, Q (Ok a) → preserves R (f a)) →
  preserves R (m ≫= f).
Proof.
  intros HQ Hm Hf w. rewrite run_bind. specialize (Hm w). specialize (HQ w).
  destruct (m w) as [[a | e] w']; simpl in *; [| done].
  etrans; [exact Hm | by apply Hf].
Qed.

(** Continuing from a world already related to the start. *)
Lemma preserves_from {A} (m : M A) (w0 w1 : World) :
  R w0 w1 → preserves R m → R w0 (m w1).2.
Proof. intros H01 Hm. etrans; [exact H01 | apply Hm]. Qed.

End MoreRunning.

Section ProbtrackxLaunches.
Import runProbtrackx2GPU.
Variable sh : World → string → Child.
Variable today now : string.

Lemma probtrackx_runs (out bedpost nm : string) (cuda : bool) (api : spawn_api)
    (bins : list string) :
  (if cuda then "probtrackx2_gpu" else "probtrackx2" : string) ∈ bins →
  runs_one_of bins (ESpawn api (probtrackxCommand out bedpost nm cuda)).
Proof.
  intros Hin. unfold runs_one_of. apply existsb_exists.
  exists (if cuda then "probtrackx2_gpu" else "probtrackx2").
  split; [by apply list_elem_of_In |].
  unfold invokes. rewrite probtrackx_first_word. by destruct cuda.
Qed.

Lemma configure_device_answer (available use_gpu : bool) (w : World) :
  (configure_device available use_gpu w).1
  = if use_gpu then (if available then Ok (device_cuda, true)
                     else Raise (UnboundLocalError "cuda"))
    else Ok (device_cpu, false).
Proof. by destruct use_gpu, available. Qed.

Lemma main_body_launches (available : bool) (args : Namespace) (bins : list string) :
  "fslcpgeom" ∈ bins →
  (if cpu args then "probtrackx2" else "probtrackx2_gpu" : string) ∈ bins →
  preserves (extends_with (runs_one_of bins)) (main_body sh available today now args).
Proof.
  intros Hgeo Hbin. unfold main_body.
  apply preserves_bind; [apply _ | by apply print_extends |]. intros _.
  apply (preserves_bind_post _
           (λ r, ∀ dc, r = Ok dc → dc.2 = negb (cpu args))).
  { intros w dc. rewrite configure_device_answer.
    destruct (cpu args), available; simpl; intros H; by simplify_eq. }
  { unfold configure_device, set_device. repeat first [trace_step | exact I]. }
  intros dc Hdc. rewrite (Hdc dc eq_refl).
  unfold ensure_output_directory, get_roi_list, set_geometry, build_probtrackx_command.
  repeat first
    [ trace_step | exact I
    | apply (runs_one_of_lit _ "fslcpgeom"); [assumption | reflexivity | reflexivity]
    | apply probtrackx_runs; by destruct (cpu args) ].
Qed.

(** Whatever happens in a run of [runProbtrackx2GPU.py], every command it
    launches runs [fslcpgeom] or the tractography binary, and the binary is
    fixed by [--cpu] alone: [probtrackx2] with it, [probtrackx2_gpu]
    without.  A run without [--cpu] never falls back to the CPU binary. *)
Theorem probtrackx_launches_only_fsl_tools (available : bool) (args : Namespace) (w : World) :
  ∃ t, trace (main_body sh available today now args w).2 = trace w ++ t
       ∧ Forall (runs_one_of
                   ["fslcpgeom";
                    if cpu args then "probtrackx2" else "probtrackx2_gpu" : string]) t.
Proof. apply main_body_launches; repeat constructor. Qed.

End ProbtrackxLaunches.

(** ** Command lines *)

Section Fragment.
Import argparse.

Lemma find_option_known (spec : list argument) (tok : string) :
  tok ∈ option_strings spec → is_help tok = true ∨ is_Some (find_option spec tok).
Proof.
  unfold option_strings. rewrite elem_of_app. intros [Hin | Hin].
  - right. apply list_elem_of_In, in_flat_map in Hin as (a & Ha & Htok).
    unfold find_option.
    destruct (find _ spec) as [a'|] eqn:Hfind; [by eexists |].
    exfalso. pose proof (find_none _ _ Hfind a Ha) as Hno. simpl in Hno.
    apply orb_false_iff in Hno as [H1 H2].
    apply bool_decide_eq_false in H1, H2.
    simpl in Htok. destruct Htok as [<- | [<- | []]]; done.
  - left. unfold is_help.
    repeat (apply elem_of_cons in Hin as [-> | Hin]; [done |]).
    by apply elem_of_nil in Hin.
Qed.

Lemma fully_spelled_tail spec tok argv :
  fully_spelled spec (tok :: argv) → fully_spelled spec argv.
Proof. intros H t Ht. apply H. set_solver. Qed.

(** Inside the fragment the model always has an answer, and the only way
    to exit with status 0 is a help option. *)
Lemma consume_outcome (spec : list argument) (n : nat) :
  ∀ argv acc,
    (length argv ≤ n)%nat → fully_spelled spec argv →
    match consume spec argv acc with
    | Parsed _ => True
    | Exit c => c = 2 ∨ (c = 0 ∧ ∃ tok, tok ∈ argv ∧ is_help tok = true)
    | Unmodelled => False
    end.
Proof.
  induction n as [|n IH]; intros argv acc Hlen Hsp.
  - destruct argv; [done | simpl in Hlen; lia].
  - destruct argv as [|tok rest]; [done |]. simpl in Hlen. simpl.
    destruct (is_help tok) eqn:Hhelp.
    { right. split; [done |]. exists tok. split; [set_solver | done]. }
    assert (∀ argv' acc', (length argv' ≤ n)%nat → (∀ t, t ∈ argv' → t ∈ rest) →
              match consume spec argv' acc' with
              | Parsed _ => True
              | Exit c => c = 2 ∨ (c = 0 ∧ ∃ t, t ∈ tok :: rest ∧ is_help t = true)
              | Unmodelled => False
              end) as Hrec.
    { intros argv' acc' Hl Hsub.
      assert (fully_spelled spec argv') as Hsp'.
      { intros t Ht. apply Hsp. apply list_elem_of_further. by apply Hsub. }
      specialize (IH argv' acc' Hl Hsp').
      destruct (consume spec argv' acc'); [done | | done].
      destruct IH as [-> | [-> (t & Ht & Hh)]]; [by left |].
      right. split; [done |]. exists t. split; [| done].
      apply list_elem_of_further. by apply Hsub. }
    destruct (find_option spec tok) as [a|] eqn:Hfind.
    + destruct (act a).
      * destruct rest as [|v rest']; [by left |].
        destruct (Str.startswith v "-") eqn:Hv.
        -- destruct (find_option_known spec v) as [Hh | Hf].
           { apply Hsp; [set_solver | done]. }
           ++ rewrite Hh. by left.
           ++ rewrite (bool_decide_eq_true_2 _ Hf), orb_true_r. by left.
        -- apply Hrec; [simpl in Hlen; lia | set_solver].
      * apply Hrec; [lia | done].
    + destruct (Str.startswith tok "-") eqn:Htok.
      * destruct (find_option_known spec tok) as [Hh | Hf].
        { apply Hsp; [set_solver | done]. }
        -- congruence.
        -- rewrite Hfind in Hf. by destruct Hf.
      * apply Hrec; [lia | done].
Qed.

End Fragment.

Section ProbtrackxRejects.
Import runProbtrackx2GPU.
Variable sh : World → string → Child.
Variable cuda_is_available : bool.
Variable today now : string.

Lemma parser_dest_inj (a a' : argparse.argument) :
  a ∈ parser → a' ∈ parser → argparse.dest a' = argparse.dest a → a' = a.
Proof.
  unfold parser. intros Ha Ha' Hdest.
  repeat (apply elem_of_cons in Ha as [-> | Ha]; [|]);
    try (by apply elem_of_nil in Ha);
    repeat (apply elem_of_cons in Ha' as [-> | Ha']; [|]);
    try (by apply elem_of_nil in Ha'); try reflexivity;
    vm_compute in Hdest; discriminate.
Qed.

(** A fully spelled command line without a help option that lacks one of
    the four required options is rejected: argparse writes its usage line
    and error message and exits with status 2, and [main] stops there.
    That message is all the run leaves behind: nothing else is printed,
    nothing is created or launched. *)
Theorem missing_required_option_exits_2 (argv : list string) (w : World) :
  fully_spelled parser argv →
  (∀ tok, tok ∈ argv → argparse.is_help tok = false) →
  (("-i" ∉ argv) ∧ ("--input_directory" ∉ argv))
  ∨ (("-s" ∉ argv) ∧ ("--subject" ∉ argv))
  ∨ (("-o" ∉ argv) ∧ ("--output_directory" ∉ argv))
  ∨ (("-b" ∉ argv) ∧ ("--bedpost_directory" ∉ argv)) →
  parse_args argv w = (Raise (SystemExit 2), emit (EArgparse 2) w)
  ∧ main sh cuda_is_available today now argv w
    = (Raise (SystemExit 2), emit (EArgparse 2) w).
Proof.
  intros Hsp Hnohelp Hmissing.
  assert (parse_args argv w = (Raise (SystemExit 2), emit (EArgparse 2) w)) as Hparse.
  { unfold parse_args.
    assert (∃ a, a ∈ parser ∧ argparse.required a = true
                 ∧ (argparse.short a ∉ argv) ∧ (argparse.long a ∉ argv))
      as (a & Ha & Hreq & Hs & Hl).
    { destruct Hmissing as [[H1 H2] | [[H1 H2] | [[H1 H2] | [H1 H2]]]].
      - exists (argparse.add_argument "-i" "--input_directory" argparse.store true).
        split_and!; [unfold parser; repeat constructor | done..].
      - exists (argparse.add_argument "-s" "--subject" argparse.store true).
        split_and!; [unfold parser; repeat constructor | done..].
      - exists (argparse.add_argument "-o" "--output_directory" argparse.store true).
        split_and!; [unfold parser; repeat constructor | done..].
      - exists (argparse.add_argument "-b" "--bedpost_directory" argparse.store true).
        split_and!; [unfold parser; repeat constructor | done..]. }
    destruct (argparse.parse_args parser argv) as [p | c |] eqn:Hp.
    - exfalso.
      destruct (parse_args_saw_required parser argv p a Hp Ha Hreq)
        as (tok & a' & Htok & Ha' & Hdest & Hspell).
      rewrite (parser_dest_inj a a' Ha Ha' Hdest) in Hspell.
      destruct Hspell as [-> | ->]; done.
    - unfold argparse.parse_args in Hp.
      pose proof (consume_outcome parser (length argv) argv
                    (argparse.mkParsed ∅ ∅ false) (le_n _) Hsp) as Hout.
      destruct (argparse.consume parser argv (argparse.mkParsed ∅ ∅ false)) as [p | c' |].
      + repeat case_match; by simplify_eq.
      + injection Hp as <-.
        destruct Hout as [-> | [_ (tok & Htok & Hh)]]; [done |].
        by rewrite (Hnohelp tok Htok) in Hh.
      + done.
    - unfold argparse.parse_args in Hp.
      pose proof (consume_outcome parser (length argv) argv
                    (argparse.mkParsed ∅ ∅ false) (le_n _) Hsp) as Hout.
      destruct (argparse.consume parser argv (argparse.mkParsed ∅ ∅ false)) as [p | c' |];
        [repeat case_match; by simplify_eq | done | done]. }
  split; [done |]. unfold main. by rewrite run_bind, Hparse.
Qed.

End ProbtrackxRejects.

Lemma missing_required_option_exits_2_witness :
  runProbtrackx2GPU.main Sample.inert true "20240101" "now"
    ["-i"; "/rois"; "-s"; "S1"; "-o"; "/out"; "--cpu"] Sample.world
  = (Raise (SystemExit 2), emit (EArgparse 2) Sample.world).
Proof.
  apply (missing_required_option_exits_2 Sample.inert true "20240101" "now"
           ["-i"; "/rois"; "-s"; "S1"; "-o"; "/out"; "--cpu"] Sample.world).
  - intros tok Htok Hdash.
    repeat (apply elem_of_cons in Htok as [-> | Htok];
            [first [discriminate Hdash | vm_compute; repeat constructor] |]).
    by apply elem_of_nil in Htok.
  - intros tok Htok.
    repeat (apply elem_of_cons in Htok as [-> | Htok]; [reflexivity |]).
    by apply elem_of_nil in Htok.
  - right. right. right. split; intros H;
      repeat (apply elem_of_cons in H as [H | H]; [discriminate |]);
      by apply elem_of_nil in H.
Defined.

Section Reflects.
Import argparse.

Lemma follows_skip1 (tok v x : string) (argv : list string) :
  follows tok v argv → follows tok v (x :: argv).
Proof. intros (pre & post & ->). by exists (x :: pre), post. Qed.

Lemma follows_skip2 (tok v x y : string) (argv : list string) :
  follows tok v argv → follows tok v (x :: y :: argv).
Proof. intros H. by do 2 apply follows_skip1. Qed.

Lemma follows_here (tok v : string) (argv : list string) : follows tok v (tok :: v :: argv).
Proof. by exists [], argv. Qed.

(** What a successful [consume] has gathered is what the command line
    holds: stored values follow their option, switches occur, and nothing
    that occurs is lost. *)
Lemma consume_reflects (spec : list argument) (n : nat) :
  (∀ a, a ∈ spec → Str.startswith (short a) "-" = true ∧ Str.startswith (long a) "-" = true) →
  ∀ argv acc p,
    (length argv ≤ n)%nat → consume spec argv acc = Parsed p →
    (∀ k v, stored p !! k = Some v →
       stored acc !! k = Some v
       ∨ ∃ tok a, follows tok v argv ∧ find_option spec tok = Some a
                  ∧ act a = store ∧ dest a = k)
    ∧ (∀ k, k ∈ switches p →
         k ∈ switches acc
         ∨ ∃ tok a, tok ∈ argv ∧ find_option spec tok = Some a
                    ∧ act a = store_true ∧ dest a = k)
    ∧ (∀ tok a, tok ∈ argv → find_option spec tok = Some a →
         (act a = store_true → dest a ∈ switches p)
         ∧ (act a = store → is_Some (stored p !! dest a)))
    ∧ (∀ k, k ∈ switches acc → k ∈ switches p)
    ∧ (∀ k, is_Some (stored acc !! k) → is_Some (stored p !! k)).
Proof.
  intros Hdash. induction n as [|n IH]; intros argv acc p Hlen Hrun.
  - destruct argv; [| simpl in Hlen; lia]. simpl in Hrun. injection Hrun as <-.
    split_and!; eauto. intros tok a Htok. by apply elem_of_nil in Htok.
  - destruct argv as [|tok0 rest].
    { simpl in Hrun. injection Hrun as <-.
      split_and!; eauto. intros tok a Htok. by apply elem_of_nil in Htok. }
    simpl in Hrun, Hlen.
    destruct (is_help tok0); [done |].
    destruct (find_option spec tok0) as [a0|] eqn:Hfind.
    + destruct (act a0) eqn:Hact.
      * (* a stored value *)
        destruct rest as [|v rest']; [done |].
        destruct (Str.startswith v "-") eqn:Hv; [by repeat case_match |].
        simpl in Hlen.
        destruct (IH rest' _ p ltac:(lia) Hrun) as (Hst & Hsw & Hocc & Hmsw & Hmst).
        simpl in *. split_and!.
        -- intros k v' Hk. destruct (Hst k v' Hk) as [Hacc | (t & a & Hf & Ha & Hs & Hd)].
           ++ destruct (decide (dest a0 = k)) as [<- | Hne].
              ** rewrite lookup_insert_eq in Hacc. injection Hacc as <-.
                 right. exists tok0, a0. split_and!; [apply follows_here | done..].
              ** rewrite lookup_insert_ne in Hacc by done. by left.
           ++ right. exists t, a. split_and!; [by apply follows_skip2 | done..].
        -- intros k Hk. destruct (Hsw k Hk) as [Hacc | (t & a & Ht & Ha & Hs & Hd)]; [by left |].
           right. exists t, a. split_and!; [by repeat constructor | done..].
        -- intros tok a Htok Ha.
           apply elem_of_cons in Htok as [-> | Htok].
           { rewrite Hfind in Ha. injection Ha as <-. split; [congruence |].
             intros _. apply Hmst. rewrite lookup_insert_eq. by eexists. }
           apply elem_of_cons in Htok as [-> | Htok]; [| by apply (Hocc tok a)].
           exfalso. apply find_option_spelling in Ha as [Hin [-> | ->]];
             destruct (Hdash a Hin); congruence.
        -- done.
        -- intros k Hk. apply Hmst.
           destruct (decide (dest a0 = k)) as [<- | Hne];
             [rewrite lookup_insert_eq; by eexists | by rewrite lookup_insert_ne].
      * (* a switch *)
        destruct (IH rest _ p ltac:(lia) Hrun) as (Hst & Hsw & Hocc & Hmsw & Hmst).
        simpl in *. split_and!.
        -- intros k v' Hk. destruct (Hst k v' Hk) as [Hacc | (t & a & Hf & Ha & Hs & Hd)];
             [by left |].
           right. exists t, a. split_and!; [by apply follows_skip1 | done..].
        -- intros k Hk. destruct (Hsw k Hk) as [Hacc | (t & a & Ht & Ha & Hs & Hd)].
           ++ apply elem_of_union in Hacc as [Hacc | Hacc]; [| by left].
              apply elem_of_singleton in Hacc as ->.
              right. exists tok0, a0. split_and!; [by repeat constructor | done..].
           ++ right. exists t, a. split_and!; [by repeat constructor | done..].
        -- intros tok a Htok Ha.
           apply elem_of_cons in Htok as [-> | Htok]; [| by apply (Hocc tok a)].
           rewrite Hfind in Ha. injection Ha as <-. split; [| congruence].
           intros _. apply Hmsw, elem_of_union. left. by apply elem_of_singleton.
        -- intros k Hk. apply Hmsw, elem_of_union. by right.
        -- done.
    + destruct (Str.startswith tok0 "-"); [done |].
      destruct (IH rest _ p ltac:(lia) Hrun) as (Hst & Hsw & Hocc & Hmsw & Hmst).
      simpl in *. split_and!; [| | | done | done].
      * intros k v' Hk. destruct (Hst k v' Hk) as [Hacc | (t & a & Hf & Ha & Hs & Hd)];
          [by left |].
        right. exists t, a. split_and!; [by apply follows_skip1 | done..].
      * intros k Hk. destruct (Hsw k Hk) as [Hacc | (t & a & Ht & Ha & Hs & Hd)]; [by left |].
        right. exists t, a. split_and!; [by repeat constructor | done..].
      * intros tok a Htok Ha.
        apply elem_of_cons in Htok as [-> | Htok]; [congruence | by apply (Hocc tok a)].
Qed.

End Reflects.

Section ProbtrackxReflects.
Import runProbtrackx2GPU.

Lemma parser_dashes (a : argparse.argument) :
  a ∈ parser →
  Str.startswith (argparse.short a) "-" = true ∧ Str.startswith (argparse.long a) "-" = true.
Proof.
  unfold parser. intros Ha.
  repeat (apply elem_of_cons in Ha as [-> | Ha]; [by split |]).
  by apply elem_of_nil in Ha.
Qed.

Lemma parser_option_of (tok k : string) (a a0 : argparse.argument) :
  argparse.find_option parser tok = Some a → argparse.dest a = k →
  a0 ∈ parser → argparse.dest a0 = k →
  tok = argparse.short a0 ∨ tok = argparse.long a0.
Proof.
  intros [Ha Hsp]%find_option_spelling Hd Ha0 Hd0.
  by rewrite <- (parser_dest_inj a0 a Ha0 Ha ltac:(congruence)).
Qed.

(** When [parse_args] returns on a fully spelled command line, the
    namespace is what the command line says: each switch is on exactly when
    one of its spellings occurs, each required value is the word right
    after one of its option's spellings, and [network] is such a word or,
    when neither spelling occurs, [None].  Parsing leaves the world alone. *)
Theorem parse_args_reflects_command_line (argv : list string) (w w' : World)
    (ns : Namespace) :
  fully_spelled parser argv →
  parse_args argv w = (Ok ns, w') →
  w' = w
  ∧ (cpu ns = true ↔ "-c" ∈ argv ∨ "--cpu" ∈ argv)
  ∧ (no_geometry_fix ns = true ↔ "-g" ∈ argv ∨ "--no_geometry_fix" ∈ argv)
  ∧ (follows "-i" (input_directory ns) argv
     ∨ follows "--input_directory" (input_directory ns) argv)
  ∧ (follows "-s" (subject ns) argv ∨ follows "--subject" (subject ns) argv)
  ∧ (follows "-o" (output_directory ns) argv
     ∨ follows "--output_directory" (output_directory ns) argv)
  ∧ (follows "-b" (bedpost_directory ns) argv
     ∨ follows "--bedpost_directory" (bedpost_directory ns) argv)
  ∧ match network ns with
    | Some v => follows "-n" v argv ∨ follows "--network" v argv
    | None => ("-n" ∉ argv) ∧ ("--network" ∉ argv)
    end.
Proof.
  intros _. unfold parse_args.
  destruct (argparse.parse_args parser argv) as [p | c |] eqn:Hp; [| done | done].
  destruct (argparse.stored p !! "input_directory") as [i|] eqn:Hi; [| done].
  destruct (argparse.stored p !! "subject") as [s|] eqn:Hs; [| done].
  destruct (argparse.stored p !! "output_directory") as [o|] eqn:Ho; [| done].
  destruct (argparse.stored p !! "bedpost_directory") as [b|] eqn:Hb; [| done].
  intros [= <- <-]. simpl.
  unfold argparse.parse_args in Hp.
  destruct (argparse.consume parser argv (argparse.mkParsed ∅ ∅ false)) as [p' | |] eqn:Hc;
    [| done | done].
  assert (p' = p) as -> by (repeat case_match; by simplify_eq).
  destruct (consume_reflects parser (length argv) parser_dashes argv _ p (le_n _) Hc)
    as (Hst & Hsw & Hocc & _ & _).
  simpl in Hst, Hsw.
  assert (∀ k v a0, argparse.stored p !! k = Some v → a0 ∈ parser → argparse.dest a0 = k →
            follows (argparse.short a0) v argv ∨ follows (argparse.long a0) v argv) as Hval.
  { intros k v a0 Hk Ha0 Hd0.
    destruct (Hst k v Hk) as [Hacc | (tok & a & Hf & Ha & _ & Hd)].
    { by rewrite lookup_empty in Hacc. }
    destruct (parser_option_of tok k a a0 Ha Hd Ha0 Hd0) as [-> | ->]; auto. }
  assert (∀ k a0, a0 ∈ parser → argparse.act a0 = argparse.store_true →
            argparse.dest a0 = k →
            k ∈ argparse.switches p ↔ argparse.short a0 ∈ argv ∨ argparse.long a0 ∈ argv)
    as Hflag.
  { intros k a0 Ha0 Hact Hd0. split.
    - intros Hk. destruct (Hsw k Hk) as [Hacc | (tok & a & Htok & Ha & _ & Hd)].
      { by apply not_elem_of_empty in Hacc. }
      destruct (parser_option_of tok k a a0 Ha Hd Ha0 Hd0) as [-> | ->]; auto.
    - intros Hin.
      assert (∀ tok, tok = argparse.short a0 ∨ tok = argparse.long a0 →
                ∃ a, argparse.find_option parser tok = Some a) as Hfound.
      { intros tok Htok.
        destruct (find_option_known parser tok) as [Hh | [a Ha]]; [| | by exists a].
        - unfold option_strings. apply elem_of_app. left.
          apply list_elem_of_In, in_flat_map. exists a0.
          split; [by apply list_elem_of_In |]. simpl. destruct Htok as [-> | ->]; auto.
        - exfalso. revert Hh. unfold parser in Ha0.
          repeat (apply elem_of_cons in Ha0 as [-> | Ha0];
                  [by destruct Htok as [-> | ->] |]).
          by apply elem_of_nil in Ha0. }
      assert (∃ tok, tok ∈ argv ∧ (tok = argparse.short a0 ∨ tok = argparse.long a0))
        as (tok & Htok & Hsp) by (destruct Hin; eauto).
      destruct (Hfound tok Hsp) as [a Ha].
      pose proof (find_option_spelling _ _ _ Ha) as [Hain Hasp].
      assert (a = a0) as ->.
      { unfold parser in Ha0, Hain.
        repeat (apply elem_of_cons in Ha0 as [-> | Ha0]; [|]);
          try (by apply elem_of_nil in Ha0);
          repeat (apply elem_of_cons in Hain as [-> | Hain]; [|]);
          try (by apply elem_of_nil in Hain); try reflexivity;
          simpl in Hsp, Hasp; destruct Hsp as [-> | ->], Hasp as [? | ?]; discriminate. }
      rewrite <- Hd0. by apply (Hocc tok a0 Htok Ha). }
  split_and!.
  - done.
  - rewrite bool_decide_eq_true.
    apply (Hflag "cpu" (argparse.add_argument "-c" "--cpu" argparse.store_true false));
      [unfold parser; repeat constructor | done | done].
  - rewrite bool_decide_eq_true.
    apply (Hflag "no_geometry_fix"
             (argparse.add_argument "-g" "--no_geometry_fix" argparse.store_true false));
      [unfold parser; repeat constructor | done | done].
  - apply (Hval _ _ (argparse.add_argument "-i" "--input_directory" argparse.store true) Hi);
      [unfold parser; repeat constructor | done].
  - apply (Hval _ _ (argparse.add_argument "-s" "--subject" argparse.store true) Hs);
      [unfold parser; repeat constructor | done].
  - apply (Hval _ _ (argparse.add_argument "-o" "--output_directory" argparse.store true) Ho);
      [unfold parser; repeat constructor | done].
  - apply (Hval _ _ (argparse.add_argument "-b" "--bedpost_directory" argparse.store true) Hb);
      [unfold parser; repeat constructor | done].
  - destruct (argparse.stored p !! "network") as [v|] eqn:Hn.
    + apply (Hval _ _ (argparse.add_argument "-n" "--network" argparse.store false) Hn);
        [unfold parser; repeat constructor | done].
    + assert (∀ tok, tok ∈ argv → tok ≠ "-n" ∧ tok ≠ "--network") as Hno.
      { intros tok Htok.
        assert (∀ a, argparse.find_option parser tok = Some a →
                  argparse.dest a ≠ "network") as Hnot.
        { intros a Ha Hd.
          pose proof (find_option_spelling _ _ _ Ha) as [Hain _].
          assert (argparse.act a = argparse.store) as Hact.
          { rewrite (parser_dest_inj
                       (argparse.add_argument "-n" "--network" argparse.store false) a
                       ltac:(unfold parser; repeat constructor) Hain Hd). done. }
          destruct (Hocc tok a Htok Ha) as [_ Hstored].
          specialize (Hstored Hact). rewrite Hd, Hn in Hstored. by destruct Hstored. }
        split; intros ->; by eapply Hnot. }
      split; intros Hin; by destruct (Hno _ Hin).
Qed.

End ProbtrackxReflects.


(** ** [callSub] and the network file *)

Section CallSub.
Variable sh : World → string → Child.

(** [callSub] runs its command twice unless the output of the first run
    stops it: the command is started with its output piped, and the lines
    it writes are decoded and printed one by one.  When they all decode,
    the command is run again, on the disk the first run left, with the
    output discarded, and [callSub] returns.  At the first line that is not
    UTF-8 [callSub] raises [UnicodeDecodeError]: the lines before it have
    been printed, and there is no second run. *)
Theorem callSub_runs_the_command_twice (cmd : string) (w : World) :
  let first := sh (emit (ESpawn Popen_pipe cmd) w) cmd in
  let shown := mkWorld (child_fs first) (cwd w) (environ w)
                 (trace w ++ [ESpawn Popen_pipe cmd]
                    ++ (EPrint <$> Str.decodable (child_lines first))) in
  registerYeoAtlas.callSub sh cmd w
  = match Str.undecodable (child_lines first) with
    | None =>
        (Ok (), set_fs (child_fs (sh (emit (ESpawn Call_devnull cmd) shown) cmd))
                  (emit (ESpawn Call_devnull cmd) shown))
    | Some bad =>
        (Raise (UnicodeDecodeError bad),
         mkWorld (child_fs_cut first) (cwd w) (environ w)
           (trace w ++ [ESpawn Popen_pipe cmd]
              ++ (EPrint <$> Str.decodable (child_lines first))))
    end
  ∧ (Str.undecodable (child_lines first) = None
     → Str.decodable (child_lines first) = child_lines first)
  ∧ (∀ bad, Str.undecodable (child_lines first) = Some bad →
       Str.utf8 bad = false
       ∧ ∃ post, child_lines first = Str.decodable (child_lines first) ++ bad :: post).
Proof.
  intros first shown. split_and!.
  - apply callSub_run.
  - apply decodable_all.
  - intros bad. induction (child_lines first) as [|l ls IH]; [done |]. simpl.
    destruct (Str.utf8 l) eqn:Hl.
    + intros Hbad. destruct (IH Hbad) as (Hu & post & Hpost).
      split; [done |]. exists post. simpl. by rewrite <- Hpost.
    + intros [= <-]. split; [done |]. by exists ls.
Qed.

End CallSub.

Lemma callSub_runs_the_command_twice_witness :
  registerYeoAtlas.callSub Sample.garbled "mri_aparc2aseg --s sub01" Sample.world
  = (Raise (UnicodeDecodeError (String "233"%char ("t" +:+ runProbtrackx2GPU.nl))),
     mkWorld Sample.disk [] ∅
       [ESpawn Popen_pipe "mri_aparc2aseg --s sub01";
        EPrint ("reading" +:+ runProbtrackx2GPU.nl)])
  ∧ Str.utf8 (String "233"%char ("t" +:+ runProbtrackx2GPU.nl)) = false
  ∧ Str.decodable (child_lines (Sample.inert
                                  (emit (ESpawn Popen_pipe "mri_aparc2aseg --s sub01")
                                     Sample.world)
                                  "mri_aparc2aseg --s sub01"))
    = [].
Proof.
  destruct (callSub_runs_the_command_twice Sample.garbled "mri_aparc2aseg --s sub01"
              Sample.world) as (Hrun & _ & Hbad).
  destruct (callSub_runs_the_command_twice Sample.inert "mri_aparc2aseg --s sub01"
              Sample.world) as (_ & Hall & _).
  split_and!.
  - rewrite Hrun. reflexivity.
  - apply (Hbad (String "233"%char ("t" +:+ runProbtrackx2GPU.nl))). reflexivity.
  - rewrite Hall; reflexivity.
Defined.

Section NetworkFile.
Import runProbtrackx2GPU.

Lemma universal_newlines_id (l : list ascii) :
  "013"%char ∉ l → Str.universal_newlines l = l.
Proof.
  induction l as [|a l IH]; [done |]. intros Hno.
  cbn [Str.universal_newlines]. case_decide as Ha.
  - exfalso. apply Hno. rewrite Ha. constructor.
  - rewrite IH; [done |]. intros Hin. apply Hno. by constructor.
Qed.

Lemma lines_chars_line (r cur rest : list ascii) :
  "010"%char ∉ r →
  Str.lines_chars cur (r ++ "010"%char :: rest)
  = (rev cur ++ r ++ ["010"%char]) :: Str.lines_chars [] rest.
Proof.
  revert cur. induction r as [|a r IH]; intros cur Hno.
  - cbn [app Str.lines_chars]. case_decide; [| done]. simpl. done.
  - cbn [app Str.lines_chars]. case_decide as Ha.
    + exfalso. apply Hno. rewrite Ha. constructor.
    + rewrite IH by (intros Hin; apply Hno; by constructor).
      simpl. by rewrite <- app_assoc.
Qed.

Lemma chars_concat_lines (rois : list string) :
  Str.chars (Str.concat ((λ item, item +:+ nl) <$> rois))
  = concat ((λ item, Str.chars item ++ ["010"%char]) <$> rois).
Proof.
  induction rois as [|r rois IH]; [done |].
  rewrite !fmap_cons. simpl. rewrite chars_app, chars_app, IH. done.
Qed.

Lemma lines_of_lines (rois : list string) :
  Forall (λ r, "010"%char ∉ Str.chars r) rois →
  Str.lines_chars [] (concat ((λ item, Str.chars item ++ ["010"%char]) <$> rois))
  = (λ item, Str.chars item ++ ["010"%char]) <$> rois.
Proof.
  induction 1 as [|r rois Hr _ IH]; [done |].
  rewrite !fmap_cons. simpl. rewrite <- app_assoc. simpl.
  by rewrite lines_chars_line, IH.
Qed.

(** What [get_roi_list] writes reads back, line by line, as the paths it
    returned. *)
Lemma readlines_of_written (rois : list string) :
  Forall one_line rois →
  Str.readlines (Str.concat ((λ item, item +:+ nl) <$> rois)) = (λ item, item +:+ nl) <$> rois.
Proof.
  intros Hone. unfold Str.readlines. rewrite chars_concat_lines.
  rewrite universal_newlines_id.
  - rewrite lines_of_lines by (eapply Forall_impl; [exact Hone | by intros ? []]).
    rewrite <- list_fmap_compose. apply list_fmap_ext. intros _ r _. simpl.
    change ["010"%char] with (Str.chars nl). rewrite <- chars_app. apply of_chars_chars.
  - induction Hone as [|r rois [_ Hcr] _ IH]; [by intros ?%elem_of_nil |].
    rewrite fmap_cons. simpl. rewrite <- app_assoc, !elem_of_app.
    intros [Hin | [Hin | Hin]]; [done | | done].
    apply list_elem_of_singleton in Hin. discriminate.
Qed.

End NetworkFile.

Section GeometryAfterListing.
Import runProbtrackx2GPU.
Variable sh : World → string → Child.

(** Writing a file where there was no directory does not close a way. *)
Lemma search_insert_file (t : gmap (list string) node) (q : list string) (n : node)
    (parts : list string) :
  q ≠ [] → node_at t q ≠ Some Dir →
  ∀ acc, search t acc parts = None → search (<[q := n]> t) acc parts = None.
Proof.
  intros Hq Hnode. induction parts as [|c cs IH]; intros acc; [done |]. simpl.
  destruct (node_at t (rev acc)) as [[content|]|] eqn:Hacc; [done | | done].
  assert (node_at (<[q := n]> t) (rev acc) = Some Dir) as ->; [| apply IH].
  destruct (rev acc) as [|d p] eqn:Hrev; [done |]. simpl.
  rewrite lookup_insert_ne; [done |]. intros ->. by rewrite Hacc in Hnode.
Qed.

Lemma write_items_inv (f : list string) (items : list string) :
  ∀ w w', for_each items (λ item, f_write f (item +:+ nl)) w = (Ok (), w') →
          Forall (λ item, Str.utf8 item = true) items.
Proof.
  induction items as [|item items IH]; intros w w' Hrun; [constructor |].
  cbn [for_each] in Hrun. apply bind_ok_inv in Hrun as ([] & w1 & Hw & Hrest).
  constructor; [| by eapply IH].
  unfold f_write in Hw. rewrite utf8_line in Hw. by destruct (Str.utf8 item).
Qed.

Lemma get_roi_list_inv (roi_path subject date : string) (w w1 : World)
    (rois : list string) (nf : string) :
  get_roi_list roi_path subject date w = (Ok (rois, nf), w1) →
  nf = ospath.join roi_path (subject +:+ "_network_" +:+ date +:+ ".txt")
  ∧ Forall (λ item, Str.utf8 item = true) rois
  ∧ ∃ q, os.locate (fs w1) (cwd w1) nf = inr q
         ∧ w1 = set_fs (<[q := File (Str.concat ((λ item, item +:+ nl) <$> rois))]> (fs w)) w
         ∧ node_at (fs w1) q = Some (File (Str.concat ((λ item, item +:+ nl) <$> rois))).
Proof.
  unfold get_roi_list. intros (files & w0 & Hlist & Hrest)%bind_ok_inv.
  assert (w0 = w) as ->.
  { unfold os.listdir in Hlist. by repeat case_match; simplify_eq. }
  apply bind_ok_inv in Hrest as (q & w2 & Hopen & Hrest).
  apply bind_ok_inv in Hrest as ([] & w3 & Hwrite & Hret).
  injection Hret as <- <- <-. split; [done |].
  destruct (open_w_inv _ _ _ _ Hopen) as (Hloc & Hnode & -> & Hq).
  pose proof (write_items_inv _ _ _ _ Hwrite) as Hall. split; [done |].
  rewrite (write_items q _ "" (fs w)) in Hwrite by done. injection Hwrite as <-.
  exists q. split_and!; [| done |].
  - simpl. unfold os.locate, os.locate_by in *.
    destruct (resolve (cwd w) _) as [p|]; [| done].
    destruct (search (fs w) _ _) eqn:Hs; [done |]. injection Hloc as ->.
    by rewrite search_insert_file.
  - simpl. destruct q; [done |]. apply lookup_insert_eq.
Qed.

(** The network file round-trips: reading back what [get_roi_list] wrote
    gives the returned paths, one per line, as long as no path contains a
    line break; so [set_geometry], run on the file just written with the
    mask in place, launches exactly one [fslcpgeom <mask> <roi>] per
    returned ROI, in order. *)
Theorem roi_list_feeds_geometry (roi_path subject date bedpost : string) (w w1 : World)
    (rois : list string) (nf : string) :
  let mask := ospath.join bedpost "nodif_brain_mask.nii.gz" in
  get_roi_list roi_path subject date w = (Ok (rois, nf), w1) →
  Forall one_line rois →
  os.path_exists mask w1 = (Ok true, w1) →
  Str.readlines (Str.concat ((λ item, item +:+ nl) <$> rois)) = (λ item, item +:+ nl) <$> rois
  ∧ (set_geometry sh bedpost nf w1).1 = Ok ()
  ∧ spawned (trace (set_geometry sh bedpost nf w1).2)
    = spawned (trace w1)
      ++ ((λ roi, (Os_system, "fslcpgeom " +:+ mask +:+ " " +:+ roi +:+ nl)) <$> rois).
Proof.
  intros mask Hrun Hone Hmask.
  pose proof (readlines_of_written rois Hone) as Hread.
  split; [exact Hread |].
  destruct (get_roi_list_inv _ _ _ _ _ _ _ Hrun) as (_ & Hall & q & Hloc & _ & Hnode).
  pose proof (set_geometry_launches sh bedpost nf w1 q _ Hmask Hloc Hnode) as Hgeo.
  rewrite utf8_concat in Hgeo.
  2: { apply Forall_fmap. eapply Forall_impl; [exact Hall |].
       intros item Hitem. simpl. by rewrite utf8_line. }
  destruct Hgeo as [Hok Htr].
  split; [exact Hok |]. fold mask in Htr. rewrite Htr, Hread. by rewrite <- list_fmap_compose.
Qed.

End GeometryAfterListing.

Lemma roi_list_feeds_geometry_witness :
  spawned (trace (runProbtrackx2GPU.set_geometry Sample.inert "/bp"
                    "/rois/S1_network_20240101.txt"
                    (runProbtrackx2GPU.get_roi_list "/rois" "S1" "20240101" Sample.world).2).2)
  = spawned (trace (runProbtrackx2GPU.get_roi_list "/rois" "S1" "20240101" Sample.world).2)
    ++ ((λ roi, (Os_system,
                 "fslcpgeom " +:+ ospath.join "/bp" "nodif_brain_mask.nii.gz" +:+ " "
                   +:+ roi +:+ runProbtrackx2GPU.nl))
          <$> ["/rois/c.nii"; "/rois/a.nii"]).
Proof.
  apply (roi_list_feeds_geometry Sample.inert "/rois" "S1" "20240101" "/bp" Sample.world
           (runProbtrackx2GPU.get_roi_list "/rois" "S1" "20240101" Sample.world).2
           ["/rois/c.nii"; "/rois/a.nii"] "/rois/S1_network_20240101.txt").
  - vm_compute. reflexivity.
  - repeat constructor; vm_compute; intros H;
      repeat (apply elem_of_cons in H as [H | H]; [discriminate |]);
      by apply elem_of_nil in H.
  - vm_compute. reflexivity.
Defined.

(** ** Environment and the shape of a successful run *)

#[global] Instance env_frame_preorder keys : PreOrder (env_frame keys).
Proof.
  split.
  - by intros w k _.
  - intros w1 w2 w3 H12 H23 k Hk. by rewrite H23, H12.
Qed.

Section EnvFacts.
Context (keys : list string).

Lemma keeps_env {A} (m : M A) :
  (∀ w, environ (m w).2 = environ w) → preserves (env_frame keys) m.
Proof. intros H w k _. by rewrite H. Qed.

Lemma setenv_frame (k v : string) : k ∈ keys → preserves (env_frame keys) (os.setenv k v).
Proof.
  intros Hk w k' Hk'. simpl. apply lookup_insert_ne. by intros ->.
Qed.

End EnvFacts.

Ltac env_step :=
  lazymatch goal with
  | |- preserves _ (raise _ ≫= _) => apply preserves_raise_bind; apply _
  | |- preserves _ (mret _) => apply preserves_ret; apply _
  | |- preserves _ (raise _) => apply preserves_raise; apply _
  | |- preserves _ (os.setenv _ _) => apply setenv_frame; repeat constructor
  | |- preserves _ (for_each _ _) => apply preserves_for_each; [apply _ | intros ? ?]
  | |- preserves _ (_ ≫= _) => apply preserves_bind; [apply _ | | intros ?]
  | |- preserves _ (match ?x with _ => _ end) => destruct x
  | |- preserves _ _ =>
      apply keeps_env; intros ?;
      unfold print, console_success, os.path_exists, os.listdir, os.mkdir, os.makedirs,
        os.chdir, os.getenv, open_w, f_write, read_lines, os_system, spawn;
      repeat case_match; reflexivity
  end.

Section Environment.
Import runProbtrackx2GPU.
Variable sh : World → string → Child.
Variable today now : string.

Lemma main_body_env (available : bool) (args : Namespace) :
  preserves
    (env_frame (if cpu args then ["FSLDIR"]
                else ["FSLDIR"; "CUDA_HOME"; "CUDA_VISIBLE_DEVICES"; "LD_LIBRARY_PATH"]))
    (main_body sh available today now args).
Proof.
  unfold main_body, configure_device, set_device, ensure_output_directory, get_roi_list,
    set_geometry, build_probtrackx_command.
  destruct (cpu args); cbn [negb]; repeat env_step.
Qed.

End Environment.

Section SuccessfulRun.
Import runProbtrackx2GPU.
Variable sh : World → string → Child.
Variable today now : string.

Lemma env_kept {A} (m : M A) (w w1 : World) (r : res A) :
  preserves (env_frame []) m → m w = (r, w1) → environ w1 = environ w.
Proof.
  intros Hm Hrun. apply map_eq. intros k.
  specialize (Hm w k). rewrite Hrun in Hm. apply Hm. by intros ?%elem_of_nil.
Qed.

Lemma ensure_output_directory_env (d : string) :
  preserves (env_frame []) (ensure_output_directory d).
Proof. unfold ensure_output_directory. repeat env_step. Qed.

Lemma get_roi_list_env (roi_path subject date : string) :
  preserves (env_frame []) (get_roi_list roi_path subject date).
Proof. unfold get_roi_list. repeat env_step. Qed.

Lemma set_geometry_env (bedpost network_file : string) :
  preserves (env_frame []) (set_geometry sh bedpost network_file).
Proof. unfold set_geometry. repeat env_step. Qed.

Lemma build_probtrackx_command_env (out bedpost nm : string) (cuda : bool) (dev : device) :
  preserves (env_frame []) (build_probtrackx_command sh out bedpost nm cuda dev).
Proof. unfold build_probtrackx_command. repeat env_step. Qed.

Ltac forward H :=
  repeat first [ rewrite run_print in H | rewrite run_setenv in H | rewrite run_getenv in H ].

(** A run that returns normally has launched the tractography command
    last, on the directory it set up, with the network file that was given
    or generated and the binary [--cpu] selects; it ran with [--cpu] or on a
    machine with CUDA; and it leaves [FSLDIR] set. *)
Theorem successful_run_ends_with_probtrackx (available : bool) (args : Namespace)
    (w w' : World) :
  main_body sh available today now args w = (Ok (), w') →
  last (spawned (trace w'))
  = Some (Os_system,
          probtrackxCommand
            (ospath.join (output_directory args)
               (subject args +:+ ".probtrackx.network." +:+ today))
            (bedpost_directory args)
            (default (ospath.join (input_directory args)
                        (subject args +:+ "_network_" +:+ today +:+ ".txt"))
                     (network args))
            (negb (cpu args)))
  ∧ (cpu args = false → available = true)
  ∧ environ w' !! "FSLDIR" = Some "/usr/pubsw/packages/fsl/6.0.5.1".
Proof.
  intros H. unfold main_body in H. forward H.
  apply bind_ok_inv in H as (dc & w2 & Hconf & H). forward H.
  apply bind_ok_inv in H as ([] & w3 & Hens & H). forward H.
  apply bind_ok_inv in H as (nf & w4 & Hnf & H).
  apply bind_ok_inv in H as ([] & w5 & Hgeo & H). forward H.
  apply bind_ok_inv in H as ([] & w6 & Hbuild & H).
  injection H as <-.
  (* the device *)
  pose proof (configure_device_answer available (negb (cpu args))
                (emit (EPrint "#------------------- Device Configuration -------------------") w))
    as Hdev.
  rewrite Hconf in Hdev. simpl in Hdev.
  assert (dc.2 = negb (cpu args) ∧ (cpu args = false → available = true)) as [Hcuda Havail].
  { destruct (cpu args), available; simpl in Hdev; simplify_eq; done. }
  (* the network file *)
  assert (nf = default (ospath.join (input_directory args)
                          (subject args +:+ "_network_" +:+ today +:+ ".txt"))
                       (network args)) as Hnfeq.
  { destruct (network args) as [n|]; forward Hnf.
    - by injection Hnf as <- _.
    - apply bind_ok_inv in Hnf as ([rois nf'] & w7 & Hroi & Hret).
      injection Hret as <- _. simpl.
      by destruct (get_roi_list_inv _ _ _ _ _ _ _ Hroi) as [-> _]. }
  split_and!.
  - unfold build_probtrackx_command in Hbuild. forward Hbuild. simpl in Hbuild.
    injection Hbuild as <-. simpl.
    rewrite !spawned_app. simpl. rewrite app_nil_r, last_snoc.
    by rewrite Hcuda, Hnfeq.
  - exact Havail.
  - cbn [environ emit].
    rewrite (env_kept _ _ _ _ (build_probtrackx_command_env _ _ _ _ _) Hbuild).
    cbn [environ emit].
    assert (environ w5 = environ w4) as ->.
    { destruct (no_geometry_fix args); forward Hgeo.
      - by injection Hgeo as <-.
      - apply (env_kept _ _ _ _ (set_geometry_env _ _) Hgeo). }
    assert (environ w4 = environ w3) as ->.
    { destruct (network args) as [n|]; forward Hnf.
      - by injection Hnf as _ <-.
      - apply bind_ok_inv in Hnf as (rn & w7 & Hroi & Hret). injection Hret as _ <-.
        apply (env_kept _ _ _ _ (get_roi_list_env _ _ _) Hroi). }
    rewrite (env_kept _ _ _ _ (ensure_output_directory_env _) Hens).
    cbn [environ emit]. apply lookup_insert_eq.
Qed.

End SuccessfulRun.

Lemma successful_run_ends_with_probtrackx_witness :
  last (spawned (trace (runProbtrackx2GPU.main_body Sample.inert true "20240101" "now"
                          Sample.args Sample.world).2))
  = Some (Os_system,
          runProbtrackx2GPU.probtrackxCommand
            (ospath.join "/out" ("S1" +:+ ".probtrackx.network." +:+ "20240101")) "/bp"
            (default (ospath.join "/rois" ("S1" +:+ "_network_" +:+ "20240101" +:+ ".txt")) None)
            (negb false)).
Proof.
  apply (successful_run_ends_with_probtrackx Sample.inert "20240101" "now" true Sample.args
           Sample.world).
  vm_compute. reflexivity.
Defined.

(** ** When a directory cannot be created *)

Section OutputDirectoryFails.
Import runProbtrackx2GPU.
Variable sh : World → string → Child.
Variable today now : string.

Lemma configure_device_world (available use_gpu : bool) (w : World) :
  fs (configure_device available use_gpu w).2 = fs w
  ∧ cwd (configure_device available use_gpu w).2 = cwd w
  ∧ spawned (trace (configure_device available use_gpu w).2) = spawned (trace w).
Proof.
  destruct use_gpu, available; simpl; rewrite ?spawned_app; simpl;
    by rewrite ?app_nil_r.
Qed.

(** When the output directory is absent and its parent is not a directory,
    the run ends in an exception before anything is launched or written. *)
Theorem uncreatable_output_directory_stops_the_run (available : bool) (args : Namespace)
    (w : World) (q : list string) :
  let out := ospath.join (output_directory args)
               (subject args +:+ ".probtrackx.network." +:+ today) in
  let r := main_body sh available today now args w in
  resolve (cwd w) out = Some q →
  node_at (fs w) q = None →
  node_at (fs w) (parent q) ≠ Some Dir →
  (∃ e, r.1 = Raise e) ∧ spawned (trace r.2) = spawned (trace w) ∧ fs r.2 = fs w.
Proof.
  intros out r Hres Hnone Hparent. subst r. unfold main_body. fold out.
  rewrite run_print, run_bind.
  pose proof (configure_device_world available (negb (cpu args))
                (emit (EPrint "#------------------- Device Configuration -------------------") w))
    as (Hfs & Hcwd & Hsp).
  destruct (configure_device available (negb (cpu args)) _) as [[dc | e] w2].
  2: { simpl in *. rewrite Hsp, spawned_app. simpl. rewrite app_nil_r. eauto. }
  simpl in Hfs, Hcwd, Hsp.
  repeat first [ rewrite run_print | rewrite run_setenv | rewrite run_getenv ].
  rewrite run_bind.
  erewrite ensure_output_directory_absent; [| simpl; rewrite Hcwd; exact Hres
                                            | simpl; rewrite Hfs; exact Hnone ].
  unfold os.mkdir. simpl cwd. simpl fs. rewrite Hcwd, Hfs.
  destruct (os.locate_new (fs w) (cwd w) out) as [e | p] eqn:Hloc.
  - split_and!; [by eexists | | done].
    simpl. rewrite !spawned_app, Hsp, spawned_app. simpl. by rewrite !app_nil_r.
  - apply locate_resolve in Hloc. rewrite Hres in Hloc. injection Hloc as <-.
    rewrite Hnone.
    destruct (node_at (fs w) (parent q)) as [[c|]|] eqn:Hp; [| done |];
      (split_and!; [by eexists | | done]);
      simpl; rewrite !spawned_app, Hsp, spawned_app; simpl; by rewrite !app_nil_r.
Qed.

End OutputDirectoryFails.

Lemma uncreatable_output_directory_stops_the_run_witness :
  (∃ e, (runProbtrackx2GPU.main_body Sample.inert true "20240101" "now"
           (runProbtrackx2GPU.mkNamespace "/rois" "S1" "/nowhere" "/bp" None false false)
           Sample.world).1 = Raise e)
  ∧ spawned (trace (runProbtrackx2GPU.main_body Sample.inert true "20240101" "now"
                      (runProbtrackx2GPU.mkNamespace "/rois" "S1" "/nowhere" "/bp" None false false)
                      Sample.world).2)
    = spawned (trace Sample.world)
  ∧ fs (runProbtrackx2GPU.main_body Sample.inert true "20240101" "now"
          (runProbtrackx2GPU.mkNamespace "/rois" "S1" "/nowhere" "/bp" None false false)
          Sample.world).2
    = fs Sample.world.
Proof.
  apply (uncreatable_output_directory_stops_the_run Sample.inert "20240101" "now" true
           (runProbtrackx2GPU.mkNamespace "/rois" "S1" "/nowhere" "/bp" None false false)
           Sample.world ["nowhere"; "S1.probtrackx.network.20240101"]);
    vm_compute; done.
Defined.

Section FileEntry.
Import registerYeoAtlas.
Variable sh : World → string → Child.

(** [os.makedirs] gives up when a component on the way is a regular file. *)
Lemma mkdirs_from_blocked (rest : list string) :
  ∀ (t : gmap (list string) node) (base : list string) (k : nat) (c : string),
    (0 < k ≤ length rest)%nat →
    node_at t (base ++ take k rest) = Some (File c) →
    os.mkdirs_from t base rest = None.
Proof.
  induction rest as [|x rest IH]; intros t base k c [Hk0 Hk] Hfile; [simpl in Hk; lia |].
  simpl. destruct k as [|k]; [lia |]. simpl in Hfile, Hk.
  replace (base ++ x :: take k rest) with ((base ++ [x]) ++ take k rest) in Hfile
    by (by rewrite <- app_assoc).
  destruct k as [|k].
  { rewrite take_0, app_nil_r in Hfile. by rewrite Hfile. }
  destruct (node_at t (base ++ [x])) as [[c'|]|] eqn:Hq; [done | |].
  - apply (IH t (base ++ [x]) (S k) c); [lia | done].
  - apply (IH _ (base ++ [x]) (S k) c); [lia |].
    rewrite node_at_insert_absent by done.
    rewrite decide_False; [done |].
    intros Heq. rewrite <- (app_nil_r (base ++ [x])) in Heq at 1.
    apply app_inv_head in Heq.
    destruct rest; [simpl in Hk; lia | discriminate].
Qed.

(** A listed entry that is a regular file (more generally: a regular file
    on the way to its label directory) makes the loop body raise
    [NotADirectoryError] at [os.makedirs], before any command is launched
    and with the disk untouched. *)
Theorem file_entry_stops_the_loop (SUBJECTS_DIR f_LUT subj : string)
    (globals : gmap string string) (w : World) (q : list string) (k : nat) (c : string) :
  let outDir := ospath.join (ospath.join SUBJECTS_DIR subj) "Schaefer2018_labels" in
  let r := process_entry sh globals SUBJECTS_DIR f_LUT subj w in
  subj ≠ "fsaverage6" →
  resolve (cwd w) outDir = Some q →
  node_at (fs w) q = None →
  (0 < k ≤ length q)%nat →
  node_at (fs w) (take k q) = Some (File c) →
  r.1 = Raise (NotADirectoryError outDir)
  ∧ spawned (trace r.2) = spawned (trace w)
  ∧ fs r.2 = fs w.
Proof.
  intros outDir r Hsubj Hres Hnone Hk Hfile. subst r. unfold process_entry.
  rewrite bool_decide_eq_true_2 by done. fold outDir.
  rewrite !run_print, run_bind. unfold ensure_outDir.
  erewrite run_bind_ok; last first.
  { apply (absent_not_exists outDir _ q); [exact Hres | exact Hnone]. }
  cbn [negb]. rewrite run_print.
  unfold os.makedirs. simpl cwd. simpl fs. rewrite Hres, Hnone.
  rewrite (mkdirs_from_blocked q (fs w) [] k c Hk Hfile).
  split_and!; [done | | done].
  simpl. rewrite !spawned_app. simpl. by rewrite !app_nil_r.
Qed.

End FileEntry.

Lemma file_entry_stops_the_loop_witness :
  (registerYeoAtlas.process_entry Sample.inert registerYeoAtlas.module_globals
     "/rois" "/atlas/lut.txt" "notes.txt" Sample.world).1
  = Raise (NotADirectoryError
             (ospath.join (ospath.join "/rois" "notes.txt") "Schaefer2018_labels")).
Proof.
  apply (file_entry_stops_the_loop Sample.inert "/rois" "/atlas/lut.txt" "notes.txt"
           registerYeoAtlas.module_globals Sample.world
           ["rois"; "notes.txt"; "Schaefer2018_labels"] 2 "n");
    first [discriminate | by vm_compute | (split; vm_compute; lia)].
Defined.

(** The run touches no environment variable but its own: [FSLDIR], and,
    unless [--cpu] is given, the three CUDA variables. *)
Theorem run_sets_only_its_variables (sh : World → string → Child) (available : bool)
    (today now : string) (args : runProbtrackx2GPU.Namespace) (w : World) (k : string) :
  k ∉ (if runProbtrackx2GPU.cpu args then ["FSLDIR"]
       else ["FSLDIR"; "CUDA_HOME"; "CUDA_VISIBLE_DEVICES"; "LD_LIBRARY_PATH"]) →
  environ (runProbtrackx2GPU.main_body sh available today now args w).2 !! k = environ w !! k.
Proof. intros Hk. by apply (main_body_env sh today now available args w k). Qed.

Lemma run_sets_only_its_variables_witness :
  environ (runProbtrackx2GPU.main_body Sample.inert true "20240101" "now" Sample.args
             Sample.world).2 !! "HOME"
  = environ Sample.world !! "HOME".
Proof.
  apply (run_sets_only_its_variables Sample.inert true "20240101" "now" Sample.args
           Sample.world "HOME").
  simpl. intros H.
  repeat (apply elem_of_cons in H as [H | H]; [discriminate |]).
  by apply elem_of_nil in H.
Defined.

Lemma parse_args_reflects_command_line_witness :
  (runProbtrackx2GPU.cpu
     (runProbtrackx2GPU.mkNamespace "/rois" "S1" "/out" "/bp" None false true) = true
   ↔ "-c" ∈ ["-i"; "/rois"; "-s"; "S1"; "-o"; "/out"; "-b"; "/bp"; "--cpu"]
     ∨ "--cpu" ∈ ["-i"; "/rois"; "-s"; "S1"; "-o"; "/out"; "-b"; "/bp"; "--cpu"])
  ∧ (follows "-i" "/rois" ["-i"; "/rois"; "-s"; "S1"; "-o"; "/out"; "-b"; "/bp"; "--cpu"]
     ∨ follows "--input_directory" "/rois"
         ["-i"; "/rois"; "-s"; "S1"; "-o"; "/out"; "-b"; "/bp"; "--cpu"]).
Proof.
  destruct (parse_args_reflects_command_line
              ["-i"; "/rois"; "-s"; "S1"; "-o"; "/out"; "-b"; "/bp"; "--cpu"]
              Sample.world Sample.world
              (runProbtrackx2GPU.mkNamespace "/rois" "S1" "/out" "/bp" None false true))
    as (_ & Hcpu & _ & Hin & _).
  - intros tok Htok Hdash.
    repeat (apply elem_of_cons in Htok as [-> | Htok];
            [first [discriminate Hdash | vm_compute; repeat constructor] |]).
    by apply elem_of_nil in Htok.
  - vm_compute. reflexivity.
  - split; [exact Hcpu | exact Hin].
Defined.
